(** * useCustomLocation: a shallow embedding of the location hook

    The development follows [src/hooks/useCustomLocation.ts].  The hook is
    single-threaded asynchronous JavaScript: every function body runs without
    interleaving up to its next [await], so each such synchronous stretch is
    embedded as one total function on the state it reads and writes, and the
    points where the code suspends are the boundaries between those functions.

    Conventions used throughout:
    - [Date.now()] is an integer number of milliseconds, a [Z]; every function
      that reads the clock takes the value it reads as an argument [now];
    - latitudes, longitudes, accuracies and the change threshold are
      JavaScript numbers, that is IEEE 754 binary64 values with the default
      rounding; they are the primitive floats of [PrimFloat], whose
      operations are the binary64 ones;
    - [null] / [undefined] are [None];
    - an [AbortSignal] is read through the value of [signal.aborted] at the
      moment the code reads it. *)

From stdpp Require Import gmap strings list.
From Stdlib Require Import ZArith QArith Qabs Lia Floats.
From Stdlib Require Uint63.

Local Open Scope Z_scope.

(* Decimal literals denote the nearest binary64 value, as in the source. *)
#[local] Set Warnings "-inexact-float".

(** ** Data model *)

(** [Location.LocationObjectCoords]: the two fields the hook computes with,
    and the accuracy passed through untouched. *)
Record LocationObjectCoords := mkCoords {
  latitude : float;
  longitude : float;
  accuracy : option float
}.

(** [Location.LocationGeocodedAddress]. *)
Record LocationGeocodedAddress := mkAddress {
  street : string;
  city : string;
  country : string
}.

(** [Location.LocationObject]. *)
Record LocationObject := mkLocation {
  loc_coords : LocationObjectCoords;
  loc_timestamp : Z
}.

(** [CachedLocation].  The TypeScript type declares [cacheTTL: number], but a
    record revived by [loadPersistedLocation] is only checked for [coords] and
    [timestamp], so the field may be missing there: [None]. *)
Record CachedLocation := mkCached {
  cl_coords : LocationObjectCoords;
  cl_address : option LocationGeocodedAddress;
  cl_timestamp : Z;
  cl_cacheTTL : option Z
}.

(** [Location.LocationAccuracy], the levels the hook names. *)
Inductive LocationAccuracy := Lowest | Low | Balanced | High | Highest.

(** Configuration constants. *)
Definition CACHE_TTL : Z := 5 * 60 * 1000.
Definition LAST_KNOWN_POSITION_MAX_AGE : Z := 60 * 1000.
Definition REQUIRED_ACCURACY_THRESHOLD : Z := 100.
Definition SIGNIFICANT_CHANGE_THRESHOLD : float := 0.0001%float.
Definition REVERSE_GEOCODE_CACHE_TTL : Z := 10 * 60 * 1000.
Definition CACHE_CLEANUP_THRESHOLD : nat := 50.

(** [UseLocationOptions] after destructuring with its defaults. *)
Record UseLocationOptions := mkOptions {
  cacheTTL : Z;
  lastKnownPositionMaxAge : Z;
  initialAccuracy : LocationAccuracy;
  refinedAccuracy : LocationAccuracy;
  enableRefinement : bool;
  significantChangeThreshold : float;
  autoFetch : bool
}.

Definition defaultOptions : UseLocationOptions :=
  {| cacheTTL := CACHE_TTL;
     lastKnownPositionMaxAge := LAST_KNOWN_POSITION_MAX_AGE;
     initialAccuracy := Low;
     refinedAccuracy := Balanced;
     enableRefinement := true;
     significantChangeThreshold := SIGNIFICANT_CHANGE_THRESHOLD;
     autoFetch := true |}.

(** What a [throw] or a rejection carries: an [Error] with its message, or
    any other value. *)
Inductive thrown :=
  | ErrorValue (message : string)
  | OtherValue.

(** How a promise settles. *)
Inductive settled (A : Type) :=
  | Fulfilled (a : A)
  | Rejected (reason : thrown).
Arguments Fulfilled {A} a.
Arguments Rejected {A} reason.

(** [AbortSignal]s are named by the order in which a session creates their
    controllers. *)
Definition Signal := nat.

(** Calls that leave the hook: the location provider, the geocoding helper
    and the persistence layer. *)
Inductive effect :=
  | RequestForegroundPermissions
  | GetLastKnownPosition (maxAge requiredAccuracy : Z)
  | GetCurrentPosition (acc : LocationAccuracy)
  | ReverseGeocodeHelper (c : LocationObjectCoords) (signal : Signal)
  | PersistLocation (c : CachedLocation).

(** ** The consumer session: the hook's [useState] and [useRef] cells *)

Record Session := mkSession {
  coords : option LocationObjectCoords;
  address : option LocationGeocodedAddress;
  loading : bool;
  error : option string;
  isMountedRef : bool;
  isFetchingRef : bool;
  hasInitialFetchRef : bool;
  abortControllerRef : option Signal;
  (* the controllers created so far, and those of them already aborted *)
  nextController : Signal;
  abortedSignals : gset Signal
}.

(** The cells as [useState] / [useRef] initialise them. *)
Definition initialSession : Session :=
  {| coords := None; address := None; loading := true; error := None;
     isMountedRef := true; isFetchingRef := false;
     hasInitialFetchRef := false; abortControllerRef := None;
     nextController := 0%nat; abortedSignals := ∅ |}.

Definition setCoords (v : option LocationObjectCoords) (s : Session) : Session :=
  mkSession v (address s) (loading s) (error s) (isMountedRef s)
    (isFetchingRef s) (hasInitialFetchRef s) (abortControllerRef s)
    (nextController s) (abortedSignals s).

Definition setAddress (v : option LocationGeocodedAddress) (s : Session) : Session :=
  mkSession (coords s) v (loading s) (error s) (isMountedRef s)
    (isFetchingRef s) (hasInitialFetchRef s) (abortControllerRef s)
    (nextController s) (abortedSignals s).

Definition setLoading (v : bool) (s : Session) : Session :=
  mkSession (coords s) (address s) v (error s) (isMountedRef s)
    (isFetchingRef s) (hasInitialFetchRef s) (abortControllerRef s)
    (nextController s) (abortedSignals s).

Definition setError (v : option string) (s : Session) : Session :=
  mkSession (coords s) (address s) (loading s) v (isMountedRef s)
    (isFetchingRef s) (hasInitialFetchRef s) (abortControllerRef s)
    (nextController s) (abortedSignals s).

Definition setIsMounted (v : bool) (s : Session) : Session :=
  mkSession (coords s) (address s) (loading s) (error s) v
    (isFetchingRef s) (hasInitialFetchRef s) (abortControllerRef s)
    (nextController s) (abortedSignals s).

Definition setIsFetching (v : bool) (s : Session) : Session :=
  mkSession (coords s) (address s) (loading s) (error s) (isMountedRef s)
    v (hasInitialFetchRef s) (abortControllerRef s)
    (nextController s) (abortedSignals s).

Definition setHasInitialFetch (v : bool) (s : Session) : Session :=
  mkSession (coords s) (address s) (loading s) (error s) (isMountedRef s)
    (isFetchingRef s) v (abortControllerRef s)
    (nextController s) (abortedSignals s).

(** [abortControllerRef.current.abort()] when the cell is not null. *)
Definition abortCurrent (s : Session) : Session :=
  match abortControllerRef s with
  | Some c =>
      mkSession (coords s) (address s) (loading s) (error s) (isMountedRef s)
        (isFetchingRef s) (hasInitialFetchRef s) (abortControllerRef s)
        (nextController s) ({[ c ]} ∪ abortedSignals s)
  | None => s
  end.

(** [new AbortController()] stored into [abortControllerRef.current]. *)
Definition newAbortController (s : Session) : Session * Signal :=
  (mkSession (coords s) (address s) (loading s) (error s) (isMountedRef s)
     (isFetchingRef s) (hasInitialFetchRef s) (Some (nextController s))
     (S (nextController s)) (abortedSignals s),
   nextController s).

(** [signal.aborted]. *)
Definition aborted (signal : Signal) (s : Session) : bool :=
  bool_decide (signal ∈ abortedSignals s).

(** [safeSetState]: the setter runs only while the component is mounted. *)
Definition safeSetState {T} (setter : T -> Session -> Session) (value : T)
    (s : Session) : Session :=
  if isMountedRef s then setter value s else s.

(** [shouldContinue]. *)
Definition shouldContinue (signal : Signal) (s : Session) : bool :=
  isMountedRef s && negb (aborted signal s).

(** The comparison [a > b] on numbers. *)
Definition number_gt (a b : float) : bool := (b <? a)%float.

(** [hasSignificantChange]. *)
Definition hasSignificantChange (threshold : float)
    (oldCoords newCoords : LocationObjectCoords) : bool :=
  number_gt (abs (latitude newCoords - latitude oldCoords)) threshold
  || number_gt (abs (longitude newCoords - longitude oldCoords)) threshold.

(** The rational a finite number denotes ([None] for NaN and the
    infinities). *)
Definition exactValue (x : float) : option Q :=
  match Prim2SF x with
  | S754_zero _ => Some 0%Q
  | S754_finite s m e =>
      let signed := if s then Z.neg m else Z.pos m in
      Some (if 0 <=? e then inject_Z (signed * 2 ^ e)
            else Qmake signed (2 ^ Z.to_pos (- e)))
  | _ => None
  end.

(** ** The global location cache *)

(** [updateLocation]: the session, the global [cachedLocation] and the
    persistence call it fires. *)
Definition updateLocation (opts : UseLocationOptions) (now : Z)
    (location : LocationObject) (geocodedAddress : option LocationGeocodedAddress)
    (s : Session) (cachedLocation : option CachedLocation)
  : Session * option CachedLocation * list effect :=
  if negb (isMountedRef s) then (s, cachedLocation, [])
  else
    let timestamp := now in
    let stale :=
      match cachedLocation with
      | Some c => timestamp <? cl_timestamp c
      | None => false
      end in
    if stale then (s, cachedLocation, [])
    else
      let s1 := setCoords (Some (loc_coords location)) s in
      let s2 := setAddress geocodedAddress s1 in
      let newCachedLocation :=
        {| cl_coords := loc_coords location;
           cl_address := geocodedAddress;
           cl_timestamp := timestamp;
           cl_cacheTTL := Some (cacheTTL opts) |} in
      (s2, Some newCachedLocation, [PersistLocation newCachedLocation]).

(** The continuation of [loadPersistedLocation()] in the mount effect:
    [if (persisted && !cachedLocation) cachedLocation = persisted]. *)
Definition adoptPersisted (persisted : option CachedLocation)
    (cachedLocation : option CachedLocation) : option CachedLocation :=
  match persisted, cachedLocation with
  | Some p, None => Some p
  | _, _ => cachedLocation
  end.

(** JavaScript's [a || b] on a number that may be missing: [0] and
    [undefined] are falsy. *)
Definition js_or (a : option Z) (b : Z) : Z :=
  match a with
  | Some v => if v =? 0 then b else v
  | None => b
  end.

(** [isCacheValid]. *)
Definition isCacheValid (opts : UseLocationOptions) (now : Z)
    (cachedLocation : option CachedLocation) : bool :=
  match cachedLocation with
  | None => false
  | Some c =>
      let effectiveTTL := js_or (cl_cacheTTL c) (cacheTTL opts) in
      now - cl_timestamp c <? effectiveTTL
  end.

(** [applyCachedLocation]. *)
Definition applyCachedLocation (s : Session)
    (cachedLocation : option CachedLocation) : Session :=
  match cachedLocation with
  | None => s
  | Some c =>
      if negb (isMountedRef s) then s
      else
        setHasInitialFetch true
          (setLoading false
            (setError None
              (setAddress (cl_address c)
                (setCoords (Some (cl_coords c)) s))))
  end.

(** The two places that assign the global [cachedLocation]. *)
Inductive cacheWrite :=
  | ByUpdateLocation (opts : UseLocationOptions) (now : Z)
      (location : LocationObject)
      (geocodedAddress : option LocationGeocodedAddress) (caller : Session)
  | ByPersistedLoad (persisted : option CachedLocation).

Definition applyWrite (w : cacheWrite) (cachedLocation : option CachedLocation)
  : option CachedLocation :=
  match w with
  | ByUpdateLocation opts now location geocodedAddress caller =>
      (updateLocation opts now location geocodedAddress caller cachedLocation).1.2
  | ByPersistedLoad persisted => adoptPersisted persisted cachedLocation
  end.

Definition applyWrites (ws : list cacheWrite)
    (cachedLocation : option CachedLocation) : option CachedLocation :=
  fold_left (fun c w => applyWrite w c) ws cachedLocation.

(** ** The reverse geocoding cache and its pending requests *)

(** [Math.round] on a number: NaN, the infinities and the zeros are
    returned as they are; a finite number that is already integral (its
    binary exponent is not negative) too; any other finite number goes to
    the nearest integer, a tie going up, the result being -0 when it is zero
    and the argument negative.  The integer is below 2^53, so its conversion
    is exact. *)
Definition Math_round (x : float) : float :=
  match Prim2SF x with
  | S754_finite s m e =>
      if 0 <=? e then x
      else
        let n := ((if s then Z.neg m else Z.pos m) * 2 + 2 ^ (- e))
                 / 2 ^ (1 - e) in
        if n =? 0 then (if s then (-0)%float else 0%float)
        else if n <? 0 then (- of_uint63 (Uint63.of_Z (- n)))%float
        else of_uint63 (Uint63.of_Z n)
  | _ => x
  end.

(** A number as a template literal prints it.  Two numbers print the same
    string exactly when they are the same number, except that +0 and -0
    both print as 0; so the number itself, the sign of zero dropped, stands
    for its string. *)
Definition printedNumber (x : float) : spec_float :=
  match Prim2SF x with
  | S754_zero _ => S754_zero false
  | v => v
  end.

#[global] Instance spec_float_eq_dec : EqDecision spec_float.
Proof. solve_decision. Defined.

Definition spec_float_code (f : spec_float)
  : bool + bool + unit + bool * positive * Z :=
  match f with
  | S754_zero s => inl (inl (inl s))
  | S754_infinity s => inl (inl (inr s))
  | S754_nan => inl (inr ())
  | S754_finite s m e => inr (s, m, e)
  end.

Definition spec_float_of_code (c : bool + bool + unit + bool * positive * Z)
  : spec_float :=
  match c with
  | inl (inl (inl s)) => S754_zero s
  | inl (inl (inr s)) => S754_infinity s
  | inl (inr _) => S754_nan
  | inr (s, m, e) => S754_finite s m e
  end.

#[global] Instance spec_float_countable : Countable spec_float.
Proof.
  refine (inj_countable' spec_float_code spec_float_of_code _).
  by intros [].
Defined.

(** [createCacheKey]: both axes multiplied by 10000, rounded, divided by
    10000 again and printed into one string with a comma between them.  The
    pair of printed numbers stands for that string. *)
Definition CacheKey : Type := spec_float * spec_float.

Definition createCacheKey (c : LocationObjectCoords) : CacheKey :=
  let lat := (Math_round (latitude c * 10000) / 10000)%float in
  let lng := (Math_round (longitude c * 10000) / 10000)%float in
  (printedNumber lat, printedNumber lng).

(** A value of [reverseGeocodeCache]. *)
Record GeocodeEntry := mkEntry {
  ge_address : option LocationGeocodedAddress;
  ge_timestamp : Z
}.

(** The body of a request promise, parked on
    [await Location.reverseGeocodeAsync(...)] with the variables it closes
    over. *)
Record GeocodeRequest := mkRequest {
  rq_cacheKey : CacheKey;
  rq_coords : LocationObjectCoords
}.

(** The module-level state of the geocoding helper.  Promises are named by
    the order of their creation; [running] holds the parked bodies,
    [settledPromises] the value of every request promise that has settled,
    [externalCalls] the arguments of every call made to
    [Location.reverseGeocodeAsync]. *)
Record GeocodeState := mkGeocode {
  reverseGeocodeCache : gmap CacheKey GeocodeEntry;
  pendingReverseGeocodeRequests : gmap CacheKey nat;
  running : gmap nat GeocodeRequest;
  settledPromises : gmap nat (option LocationGeocodedAddress);
  nextPromise : nat;
  cleanupScheduled : bool;
  cleanupTimeoutId : bool;
  externalCalls : list (float * float)
}.

Definition initialGeocode : GeocodeState :=
  mkGeocode ∅ ∅ ∅ ∅ 0%nat false false [].

(** What a call of the helper hands back: a value (the promise of the
    [async] function is fulfilled with it at once) or one of the request
    promises. *)
Inductive GeocodeReturn :=
  | ReturnsValue (a : option LocationGeocodedAddress)
  | ReturnsPromise (p : nat).

(** How [Location.reverseGeocodeAsync] settles. *)
Inductive GeocodeOutcome :=
  | GeocoderReturns (addresses : list LocationGeocodedAddress)
  | GeocoderThrows (reason : thrown).

(** [cached && now - cached.timestamp < REVERSE_GEOCODE_CACHE_TTL]. *)
Definition validEntry (now : Z) (cached : option GeocodeEntry) : bool :=
  match cached with
  | Some e => now - ge_timestamp e <? REVERSE_GEOCODE_CACHE_TTL
  | None => false
  end.

(** [reverseGeocodeAsync], from its entry to the point where it returns.
    [signalAborted] is [signal?.aborted]; the stretch is synchronous, so all
    its reads of the flag see one value. *)
Definition reverseGeocodeAsync (coords : LocationObjectCoords)
    (signalAborted : bool) (now : Z) (st : GeocodeState)
  : GeocodeState * GeocodeReturn :=
  if signalAborted then (st, ReturnsValue None)
  else
    let cacheKey := createCacheKey coords in
    let cached := reverseGeocodeCache st !! cacheKey in
    if validEntry now cached then
      (st, ReturnsValue (from_option ge_address None cached))
    else
      match pendingReverseGeocodeRequests st !! cacheKey with
      | Some pendingRequest =>
          if signalAborted then (st, ReturnsValue None)
          else (st, ReturnsPromise pendingRequest)
      | None =>
          let requestPromise := nextPromise st in
          (* the body of the request runs up to its first await *)
          let st1 :=
            if signalAborted then
              mkGeocode (reverseGeocodeCache st)
                (delete cacheKey (pendingReverseGeocodeRequests st))
                (running st)
                (<[requestPromise := None]> (settledPromises st))
                (S requestPromise) (cleanupScheduled st) (cleanupTimeoutId st)
                (externalCalls st)
            else
              mkGeocode (reverseGeocodeCache st)
                (pendingReverseGeocodeRequests st)
                (<[requestPromise := mkRequest cacheKey coords]> (running st))
                (settledPromises st)
                (S requestPromise) (cleanupScheduled st) (cleanupTimeoutId st)
                (externalCalls st ++ [(latitude coords, longitude coords)]) in
          (* pendingReverseGeocodeRequests.set(cacheKey, requestPromise) *)
          (mkGeocode (reverseGeocodeCache st1)
             (<[cacheKey := requestPromise]> (pendingReverseGeocodeRequests st1))
             (running st1) (settledPromises st1) (nextPromise st1)
             (cleanupScheduled st1) (cleanupTimeoutId st1) (externalCalls st1),
           ReturnsPromise requestPromise)
      end.

(** The rest of a request's body, from the moment the external call settles:
    the [try] after the [await], the [catch], the [finally].  The debounce
    flags are those of [scheduleCacheCleanup]. *)
Definition resumeRequest (p : nat) (outcome : GeocodeOutcome)
    (signalAborted : bool) (now : Z) (st : GeocodeState) : GeocodeState :=
  match running st !! p with
  | None => st
  | Some rq =>
      let cacheKey := rq_cacheKey rq in
      let '(result, cache, scheduled, timer) :=
        match outcome with
        | GeocoderReturns addresses =>
            if signalAborted then
              (None, reverseGeocodeCache st, cleanupScheduled st,
               cleanupTimeoutId st)
            else
              let saveTimestamp := now in
              let result := head addresses in
              let cache :=
                <[cacheKey := mkEntry result saveTimestamp]>
                  (reverseGeocodeCache st) in
              if bool_decide (CACHE_CLEANUP_THRESHOLD < size cache)%nat then
                (* scheduleCacheCleanup *)
                if cleanupScheduled st then
                  (result, cache, cleanupScheduled st, cleanupTimeoutId st)
                else (result, cache, true, true)
              else (result, cache, cleanupScheduled st, cleanupTimeoutId st)
        | GeocoderThrows _ =>
            (None, reverseGeocodeCache st, cleanupScheduled st,
             cleanupTimeoutId st)
        end in
      mkGeocode cache
        (delete cacheKey (pendingReverseGeocodeRequests st))
        (delete p (running st))
        (<[p := result]> (settledPromises st))
        (nextPromise st) scheduled timer (externalCalls st)
  end.

(** [cleanReverseGeocodeCache]. *)
Definition cleanReverseGeocodeCache (now : Z)
    (cache : gmap CacheKey GeocodeEntry) : gmap CacheKey GeocodeEntry :=
  if bool_decide (size cache <= CACHE_CLEANUP_THRESHOLD)%nat then cache
  else
    filter (fun kv => ¬ (now - ge_timestamp kv.2 > REVERSE_GEOCODE_CACHE_TTL))
      cache.

(** The callback of the debounce timer armed by [scheduleCacheCleanup]. *)
Definition cleanupTimerFires (now : Z) (st : GeocodeState) : GeocodeState :=
  if cleanupTimeoutId st then
    mkGeocode (cleanReverseGeocodeCache now (reverseGeocodeCache st))
      (pendingReverseGeocodeRequests st) (running st) (settledPromises st)
      (nextPromise st) false false (externalCalls st)
  else st.

(** Everything that can happen to the helper's state. *)
Inductive GeocodeEvent :=
  | HelperCalled (coords : LocationObjectCoords) (signalAborted : bool)
      (now : Z)
  | ExternalSettled (p : nat) (outcome : GeocodeOutcome)
      (signalAborted : bool) (now : Z)
  | CleanupTimer (now : Z).

Definition geocodeStep (st : GeocodeState) (ev : GeocodeEvent) : GeocodeState :=
  match ev with
  | HelperCalled coords signalAborted now =>
      (reverseGeocodeAsync coords signalAborted now st).1
  | ExternalSettled p outcome signalAborted now =>
      resumeRequest p outcome signalAborted now st
  | CleanupTimer now => cleanupTimerFires now st
  end.

Definition geocodeRun (evs : list GeocodeEvent) (st : GeocodeState)
  : GeocodeState :=
  fold_left geocodeStep evs st.

(** What the holder of a returned value or promise ends up with, once the
    promise has settled. *)
Definition received (r : GeocodeReturn) (st : GeocodeState)
  : option (option LocationGeocodedAddress) :=
  match r with
  | ReturnsValue a => Some a
  | ReturnsPromise p => settledPromises st !! p
  end.

(** ** The fetch mutex *)

(** [FetchMutex].  A queued closure resolves the promise of the [acquire]
    call that pushed it; it is named by that caller. *)
Record FetchMutex := mkMutex {
  isLocked : bool;
  waiters : list nat
}.

Definition fetchMutex0 : FetchMutex := mkMutex false [].

(** [acquire]: the new state, and whether the promise is resolved at once. *)
Definition acquire (caller : nat) (m : FetchMutex) : FetchMutex * bool :=
  if negb (isLocked m) then (mkMutex true (waiters m), true)
  else (mkMutex (isLocked m) (waiters m ++ [caller]), false).

(** The release handle (both copies in the source have this body): the new
    state and the waiter whose closure was run. *)
Definition release (m : FetchMutex) : FetchMutex * option nat :=
  match waiters m with
  | [] => (mkMutex false [], None)
  | next :: rest => (mkMutex true rest, Some next)
  end.

(** Where a run of [initializeLocation] stands with respect to the lock. *)
Inductive AcquirerPhase :=
  | AwaitingRace   (* parked on Promise.race([mutexPromise, cancellationPromise]) *)
  | HoldsHandle    (* releaseMutex is a release handle *)
  | GaveUp.        (* the race produced null; the function has returned *)

Record LockSystem := mkLock {
  mutex : FetchMutex;
  phases : gmap nat AcquirerPhase
}.

Definition lockSystem0 : LockSystem := mkLock fetchMutex0 ∅.

Inductive LockEvent :=
  | Acquires (i : nat)      (* i reaches fetchMutex.acquire() *)
  | CancelledPoll (i : nat) (* checkCancelled of i sees cancelled || !mounted *)
  | Releases (i : nat).     (* i calls its release handle *)

(** One event of the lock protocol of [initializeLocation]:
    - an acquirer granted at once holds the handle, otherwise it parks on
      the race;
    - the cancellation promise resolving to null ends a parked acquirer
      ([releaseMutex] is null, so its [finally] calls nothing); nothing in
      that path touches the mutex;
    - a release runs the next closure; the promise that closure resolves
      reaches its acquirer only if that acquirer is still parked.  The
      handle stays in [releaseMutex] and may be called again. *)
Definition lockStep (sys : LockSystem) (ev : LockEvent) : LockSystem :=
  match ev with
  | Acquires i =>
      let '(m, granted) := acquire i (mutex sys) in
      mkLock m (<[i := if granted then HoldsHandle else AwaitingRace]> (phases sys))
  | CancelledPoll i =>
      match phases sys !! i with
      | Some AwaitingRace => mkLock (mutex sys) (<[i := GaveUp]> (phases sys))
      | _ => sys
      end
  | Releases i =>
      match phases sys !! i with
      | Some HoldsHandle =>
          let '(m, next) := release (mutex sys) in
          let ph := phases sys in
          match next with
          | Some j =>
              match ph !! j with
              | Some AwaitingRace => mkLock m (<[j := HoldsHandle]> ph)
              | _ => mkLock m ph
              end
          | None => mkLock m ph
          end
      | _ => sys
      end
  end.

Definition lockRun (evs : list LockEvent) (sys : LockSystem) : LockSystem :=
  fold_left lockStep evs sys.

(** ** The race strategy *)

(** One run of [fetchLocationWithRace]: how the two provider calls settle,
    which of the two derived promises settles first, and the value of
    [signal.aborted] at each place the code reads it. *)
Record RaceRun := mkRace {
  lastKnownReply : settled (option LocationObject);
  newPositionReply : settled LocationObject;
  lastKnownSettlesFirst : bool;
  abortedAtLastKnown : bool;
  abortedAtNewPosition : bool;
  abortedAfterRace : bool;
  abortedAfterAllSettled : bool
}.

(** [.catch(() => null)]. *)
Definition catchNull {A} (value : A -> option LocationObject) (p : settled A)
  : settled (option LocationObject) :=
  match p with
  | Fulfilled a => Fulfilled (value a)
  | Rejected _ => Fulfilled None
  end.

(** [.then((result) => { if (signal.aborted) return null; return result; })]. *)
Definition thenUnlessAborted (signalAborted : bool)
    (p : settled (option LocationObject)) : settled (option LocationObject) :=
  match p with
  | Fulfilled result => Fulfilled (if signalAborted then None else result)
  | Rejected e => Rejected e
  end.

(** [Promise.race] of two promises: it settles as the first one to settle. *)
Definition Promise_race {A} (leftFirst : bool) (a b : settled A) : settled A :=
  if leftFirst then a else b.

(** An element of the array [Promise.allSettled] resolves to. *)
Inductive SettledResult (A : Type) :=
  | StatusFulfilled (value : A)
  | StatusRejected (reason : thrown).
Arguments StatusFulfilled {A} value.
Arguments StatusRejected {A} reason.

Definition toSettledResult {A} (p : settled A) : SettledResult A :=
  match p with
  | Fulfilled v => StatusFulfilled v
  | Rejected e => StatusRejected e
  end.

(** [Promise.allSettled] of two promises never rejects. *)
Definition Promise_allSettled {A} (a b : settled A)
  : settled (SettledResult A * SettledResult A) :=
  Fulfilled (toSettledResult a, toSettledResult b).

(** [fetchLocationWithRace]: how the promise it returns settles. *)
Definition fetchLocationWithRace (r : RaceRun) : settled (option LocationObject) :=
  let lastKnownPromise :=
    thenUnlessAborted (abortedAtLastKnown r) (catchNull id (lastKnownReply r)) in
  let newPositionPromise :=
    thenUnlessAborted (abortedAtNewPosition r)
      (catchNull Some (newPositionReply r)) in
  match Promise_race (lastKnownSettlesFirst r) lastKnownPromise newPositionPromise with
  | Rejected e => Rejected e
  | Fulfilled raceResult =>
      if abortedAfterRace r then Fulfilled None
      else
        match raceResult with
        | Some l => Fulfilled (Some l)
        | None =>
            match Promise_allSettled lastKnownPromise newPositionPromise with
            | Rejected e => Rejected e
            | Fulfilled (lastKnown, newPosition) =>
                if abortedAfterAllSettled r then Fulfilled None
                else
                  match lastKnown with
                  | StatusFulfilled (Some v) => Fulfilled (Some v)
                  | _ =>
                      match newPosition with
                      | StatusFulfilled (Some v) => Fulfilled (Some v)
                      | _ => Fulfilled None
                      end
                  end
            end
        end
  end.

(** ** [fetchLocation], one function per synchronous stretch *)

Definition PERMISSION_MESSAGE : string :=
  "Unable to access your location. Check your device settings.".
Definition NO_FIX_MESSAGE : string :=
  "Unable to get location. Please try again.".

(** The [status] field of the permission response. *)
Inductive PermissionStatus := Granted | Denied | Undetermined.

(** The [finally] block. *)
Definition fetchLocation_finally (s : Session) : Session :=
  setIsFetching false s.

(** The [catch] block. *)
Definition fetchLocation_catch (signal : Signal) (fetchError : thrown)
    (s : Session) : Session :=
  if aborted signal s then s
  else if isMountedRef s then
    let message :=
      match fetchError with
      | ErrorValue m => m
      | OtherValue => PERMISSION_MESSAGE
      end in
    safeSetState setLoading false
      (safeSetState setAddress None
        (safeSetState setCoords None
          (safeSetState setError (Some message) s)))
  else s.

(** [fetchLocation] (the [refresh] of the public result) up to its first
    [await]: the new session, the signal of the fetch it started if it
    started one, and the provider calls it made. *)
Definition fetchLocation (s : Session) : Session * option Signal * list effect :=
  if isFetchingRef s then (s, None, [])
  else
    let s1 := abortCurrent s in
    let '(s2, signal) := newAbortController s1 in
    let s3 := setIsFetching true s2 in
    let s4 := safeSetState setLoading true s3 in
    let s5 := safeSetState setError None s4 in
    (s5, Some signal, [RequestForegroundPermissions]).

Definition refresh := fetchLocation.

(** From the permission reply to the call of [fetchLocationWithRace]; the
    boolean tells whether the fetch is still running afterwards. *)
Definition fetchLocation_permission (opts : UseLocationOptions)
    (signal : Signal) (reply : settled PermissionStatus) (s : Session)
  : Session * bool * list effect :=
  match reply with
  | Rejected e => (fetchLocation_finally (fetchLocation_catch signal e s), false, [])
  | Fulfilled status =>
      if aborted signal s then (fetchLocation_finally s, false, [])
      else
        match status with
        | Granted =>
            (s, true,
             [GetLastKnownPosition (lastKnownPositionMaxAge opts)
                REQUIRED_ACCURACY_THRESHOLD;
              GetCurrentPosition (initialAccuracy opts)])
        | _ =>
            (fetchLocation_finally
               (fetchLocation_catch signal (ErrorValue PERMISSION_MESSAGE) s),
             false, [])
        end
  end.

(** From the result of [fetchLocationWithRace] to the end of the function. *)
Definition fetchLocation_located (opts : UseLocationOptions)
    (signal : Signal) (reply : settled (option LocationObject)) (s : Session)
  : Session * list effect :=
  match reply with
  | Rejected e => (fetchLocation_finally (fetchLocation_catch signal e s), [])
  | Fulfilled location =>
      if aborted signal s then (fetchLocation_finally s, [])
      else
        match location with
        | None =>
            (fetchLocation_finally
               (fetchLocation_catch signal (ErrorValue NO_FIX_MESSAGE) s), [])
        | Some location =>
            if negb (isMountedRef s) then (fetchLocation_finally s, [])
            else
              let s1 := setLoading false (setCoords (Some (loc_coords location)) s) in
              let geocode := [ReverseGeocodeHelper (loc_coords location) signal] in
              let refine :=
                if enableRefinement opts && shouldContinue signal s1
                then [GetCurrentPosition (refinedAccuracy opts)] else [] in
              (fetchLocation_finally s1, geocode ++ refine)
        end
  end.

(** The continuation attached to the address lookup. *)
Definition onGeocoded (opts : UseLocationOptions) (signal : Signal) (now : Z)
    (location : LocationObject)
    (geocodedAddress : option LocationGeocodedAddress)
    (s : Session) (cachedLocation : option CachedLocation)
  : Session * option CachedLocation * list effect :=
  if shouldContinue signal s
  then updateLocation opts now location geocodedAddress s cachedLocation
  else (s, cachedLocation, []).

(** The continuation attached to the refined position. *)
Definition onRefined (opts : UseLocationOptions) (signal : Signal)
    (location refinedLocation : LocationObject) (s : Session) : list effect :=
  if shouldContinue signal s
     && hasSignificantChange (significantChangeThreshold opts)
          (loc_coords location) (loc_coords refinedLocation)
  then [ReverseGeocodeHelper (loc_coords refinedLocation) signal]
  else [].

(** The cleanup of the mount effect. *)
Definition unmount (s : Session) : Session :=
  let s1 := setHasInitialFetch false (setIsMounted false s) in
  let s2 :=
    match abortControllerRef s1 with
    | Some _ =>
        let a := abortCurrent s1 in
        mkSession (coords a) (address a) (loading a) (error a) (isMountedRef a)
          (isFetchingRef a) (hasInitialFetchRef a) None
          (nextController a) (abortedSignals a)
    | None => s1
    end in
  setIsFetching false s2.

(** [refresh()] called [n] times in a row with nothing else in between: the
    final session and all provider calls made. *)
Fixpoint refreshTimes (n : nat) (s : Session) : Session * list effect :=
  match n with
  | O => (s, [])
  | S k =>
      let '(s1, _, calls) := refresh s in
      let '(s2, more) := refreshTimes k s1 in
      (s2, calls ++ more)
  end.

(** The fix a provider call succeeded with, if it did. *)
Definition lastKnownFix (p : settled (option LocationObject))
  : option LocationObject :=
  match p with
  | Fulfilled (Some l) => Some l
  | _ => None
  end.

Definition newPositionFix (p : settled LocationObject) : option LocationObject :=
  match p with
  | Fulfilled l => Some l
  | Rejected _ => None
  end.

(** The visible state after a failure, and the session being ready for
    another [refresh()]. *)
Definition failedWith (message : string) (s : Session) : Prop :=
  coords s = None /\ address s = None /\ loading s = false
  /\ error s = Some message /\ isFetchingRef s = false
  /\ exists s' signal,
       refresh s = (s', Some signal, [RequestForegroundPermissions]).

(** The bookkeeping of the geocoding helper is consistent: the pending map
    and the parked request bodies describe each other, and promise names are
    fresh. *)
Definition GeocodeInv (st : GeocodeState) : Prop :=
  (forall p rq, running st !! p = Some rq ->
     pendingReverseGeocodeRequests st !! rq_cacheKey rq = Some p)
  /\ (forall k p, pendingReverseGeocodeRequests st !! k = Some p ->
       exists rq, running st !! p = Some rq /\ rq_cacheKey rq = k)
  /\ (forall p, is_Some (running st !! p) -> (p < nextPromise st)%nat).

(** ** The mount effects and [initializeLocation] *)

(** The body of the first mount effect. *)
Definition mount (s : Session) : Session :=
  setHasInitialFetch false (setIsMounted true s).

(** What a consumer sees of a session. *)
Definition visible (s : Session)
  : option LocationObjectCoords * option LocationGeocodedAddress * bool
    * option string :=
  (coords s, address s, loading s, error s).

(** [checkAndApplyCache]. *)
Definition checkAndApplyCache (opts : UseLocationOptions) (now : Z)
    (s : Session) (cachedLocation : option CachedLocation) : Session * bool :=
  match cachedLocation with
  | Some _ =>
      if isCacheValid opts now cachedLocation
      then (setHasInitialFetch true (applyCachedLocation s cachedLocation), true)
      else (s, false)
  | None => (s, false)
  end.

(** The synchronous part of the second mount effect, up to the call of
    [initializeLocation]; the boolean tells whether that call is made.  The
    persisted record arrives later, through [adoptPersisted]. *)
Definition mountEffect (opts : UseLocationOptions) (now : Z)
    (s : Session) (cachedLocation : option CachedLocation) : Session * bool :=
  if negb (autoFetch opts) || hasInitialFetchRef s then (s, false)
  else
    match cachedLocation with
    | Some _ =>
        let s1 := applyCachedLocation s cachedLocation in
        if isCacheValid opts now cachedLocation
        then (setHasInitialFetch true s1, false)
        else (s1, true)
    | None => (s, true)
    end.

(** Where a stretch of [initializeLocation] leaves the function. *)
Inductive InitNext :=
  | InitReturned                       (* the function is over *)
  | InitPolling                        (* parked on the polling timeout *)
  | InitFetching (signal : option Signal). (* parked on [await fetchLocation()] *)

(** The outcome of one stretch of [initializeLocation]: the session, how
    many times the release handle was called ([finally] included when the
    function is over), what comes next and the provider calls made. *)
Record InitStretch := mkStretch {
  is_session : Session;
  is_releases : nat;
  is_next : InitNext;
  is_calls : list effect
}.

(** [initializeLocation] from the head of its [while] loop on.  [cancelled]
    is the flag of the effect closure as the stretch reads it. *)
Definition initializeLocation_wait (opts : UseLocationOptions) (now : Z)
    (cancelled : bool) (s : Session) (cachedLocation : option CachedLocation)
  : InitStretch :=
  if isFetchingRef s && negb cancelled && isMountedRef s then
    mkStretch s 0 InitPolling []
  else if cancelled || negb (isMountedRef s) then
    mkStretch s 2 InitReturned []
  else
    let '(s1, hit) := checkAndApplyCache opts now s cachedLocation in
    if hit then mkStretch s1 2 InitReturned []
    else
      let s2 := setHasInitialFetch true s1 in
      let '(s3, signal, calls) := fetchLocation s2 in
      mkStretch s3 0 (InitFetching signal) calls.

(** [initializeLocation] from the moment the race between the mutex and the
    cancellation poll settles; [gotHandle] tells whether it produced a
    release handle. *)
Definition initializeLocation_afterRace (opts : UseLocationOptions) (now : Z)
    (gotHandle cancelled : bool) (s : Session)
    (cachedLocation : option CachedLocation) : InitStretch :=
  if negb gotHandle || cancelled || negb (isMountedRef s) then
    mkStretch s (if gotHandle then 1 else 0) InitReturned []
  else
    let '(s1, hit) := checkAndApplyCache opts now s cachedLocation in
    if hit then mkStretch s1 2 InitReturned []
    else initializeLocation_wait opts now cancelled s1 cachedLocation.

(** The handle of acquirer [i] called [n] times in a row. *)
Definition releasesBy (i : nat) (n : nat) : list LockEvent :=
  replicate n (Releases i).

(** ** Sequences of operations *)

(** The mutex on its own. *)
Inductive MutexOp :=
  | OpAcquire (caller : nat)
  | OpRelease.

Definition mutexStep (m : FetchMutex) (op : MutexOp) : FetchMutex :=
  match op with
  | OpAcquire caller => (acquire caller m).1
  | OpRelease => (release m).1
  end.

Definition mutexRun (ops : list MutexOp) (m : FetchMutex) : FetchMutex :=
  fold_left mutexStep ops m.

(** [n] calls of release handles in a row: the final mutex and the waiters
    whose closures ran, in order. *)
Fixpoint releaseTimes (n : nat) (m : FetchMutex) : FetchMutex * list nat :=
  match n with
  | O => (m, [])
  | S k =>
      let '(m1, next) := release m in
      let '(m2, granted) := releaseTimes k m1 in
      (m2, from_option (fun j => [j]) [] next ++ granted)
  end.

(** Everything that can happen to one session and the global location
    cache. *)
Inductive SessionEvent :=
  | SeMount
  | SeUnmount
  | SeMountEffect (opts : UseLocationOptions) (now : Z)
  | SePersistedLoaded (persisted : option CachedLocation)
  | SeRefresh
  | SePermission (opts : UseLocationOptions) (signal : Signal)
      (reply : settled PermissionStatus)
  | SeLocated (opts : UseLocationOptions) (signal : Signal)
      (reply : settled (option LocationObject))
  | SeGeocoded (opts : UseLocationOptions) (signal : Signal) (now : Z)
      (location : LocationObject)
      (geocodedAddress : option LocationGeocodedAddress).

Definition sessionStep (w : Session * option CachedLocation)
    (ev : SessionEvent) : Session * option CachedLocation :=
  let '(s, c) := w in
  match ev with
  | SeMount => (mount s, c)
  | SeUnmount => (unmount s, c)
  | SeMountEffect opts now => ((mountEffect opts now s c).1, c)
  | SePersistedLoaded persisted => (s, adoptPersisted persisted c)
  | SeRefresh => ((fetchLocation s).1.1, c)
  | SePermission opts signal reply =>
      ((fetchLocation_permission opts signal reply s).1.1, c)
  | SeLocated opts signal reply =>
      ((fetchLocation_located opts signal reply s).1, c)
  | SeGeocoded opts signal now location geocodedAddress =>
      let r := onGeocoded opts signal now location geocodedAddress s c in
      (r.1.1, r.1.2)
  end.

Definition sessionRun (evs : list SessionEvent)
    (w : Session * option CachedLocation) : Session * option CachedLocation :=
  fold_left sessionStep evs w.

(** The controllers of a session are consistent: aborted signals and the
    current controller have been created, and every created signal other
    than the current one is aborted. *)
Definition SignalsInv (s : Session) : Prop :=
  (forall c, c ∈ abortedSignals s -> (c < nextController s)%nat)
  /\ (forall c, abortControllerRef s = Some c -> (c < nextController s)%nat)
  /\ (forall c, (c < nextController s)%nat -> c ∉ abortedSignals s ->
       abortControllerRef s = Some c).

(** The promises of the geocoding helper are accounted for: one external
    call per promise, and every promise created so far is either parked or
    settled, never both. *)
Definition PromisesInv (st : GeocodeState) : Prop :=
  length (externalCalls st) = nextPromise st
  /\ (forall p, (p < nextPromise st)%nat ->
       (is_Some (running st !! p) /\ settledPromises st !! p = None)
       \/ (running st !! p = None /\ is_Some (settledPromises st !! p)))
  /\ (forall p, (nextPromise st <= p)%nat ->
       running st !! p = None /\ settledPromises st !! p = None).

(** * Properties *)

(** ** Location cache *)

Lemma updateLocation_cache_cases opts now location geocodedAddress s c :
  (updateLocation opts now location geocodedAddress s c).1.2 = c
  \/ ((forall r, c = Some r -> cl_timestamp r <= now)
      /\ (updateLocation opts now location geocodedAddress s c).1.2
         = Some (mkCached (loc_coords location) geocodedAddress now
                   (Some (cacheTTL opts)))).
Proof.
  unfold updateLocation.
  destruct (isMountedRef s); simpl; [|by left].
  destruct c as [r|]; simpl.
  - destruct (Z.ltb_spec now (cl_timestamp r)); simpl; [by left|].
    right. split; [|done]. intros r' [= <-]. done.
  - right. split; [|done]. intros r' [=].
Qed.

Lemma applyWrite_monotone w c r :
  c = Some r ->
  exists r', applyWrite w c = Some r' /\ cl_timestamp r <= cl_timestamp r'.
Proof.
  intros ->. destruct w as [opts now location a caller | persisted]; simpl.
  - destruct (updateLocation_cache_cases opts now location a caller (Some r))
      as [-> | [Hle ->]].
    + exists r. split; [done | lia].
    + eexists. split; [done|]. simpl. by apply Hle.
  - exists r. split; [|lia]. by destruct persisted.
Qed.

Lemma applyWrites_monotone ws : forall c r,
  c = Some r ->
  exists r', applyWrites ws c = Some r' /\ cl_timestamp r <= cl_timestamp r'.
Proof.
  induction ws as [|w ws IH]; intros c r Hc.
  - exists r. split; [done | lia].
  - destruct (applyWrite_monotone w c r Hc) as (r1 & H1 & Hle1).
    destruct (IH _ _ H1) as (r2 & H2 & Hle2).
    exists r2. split; [exact H2 | lia].
Qed.

Lemma applyWrites_app ws1 ws2 c :
  applyWrites (ws1 ++ ws2) c = applyWrites ws2 (applyWrites ws1 c).
Proof. unfold applyWrites. apply fold_left_app. Qed.

(** C1.  Along every sequence of writes to the global location cache the
    timestamp of the stored record never decreases: whatever record is stored
    after a prefix of the writes, a record is still stored after any longer
    prefix and its timestamp is at least as large.  A call of
    [updateLocation] whose timestamp is strictly older than the stored one
    changes nothing (cache, session, no persistence call); any other call by
    a mounted session replaces the record wholesale by the new coordinates,
    address, timestamp and TTL. *)
Theorem C1_location_cache_timestamps_monotone :
  (forall ws1 ws2 c0 r,
      applyWrites ws1 c0 = Some r ->
      exists r', applyWrites (ws1 ++ ws2) c0 = Some r'
                 /\ cl_timestamp r <= cl_timestamp r')
  /\ (forall opts now location geocodedAddress s r,
        now < cl_timestamp r ->
        updateLocation opts now location geocodedAddress s (Some r)
        = (s, Some r, []))
  /\ (forall opts now location geocodedAddress s c,
        isMountedRef s = true ->
        (forall r, c = Some r -> cl_timestamp r <= now) ->
        let new := mkCached (loc_coords location) geocodedAddress now
                     (Some (cacheTTL opts)) in
        updateLocation opts now location geocodedAddress s c
        = (setAddress geocodedAddress (setCoords (Some (loc_coords location)) s),
           Some new, [PersistLocation new])).
Proof.
  split; [|split].
  - intros ws1 ws2 c0 r H. rewrite applyWrites_app.
    by apply applyWrites_monotone.
  - intros opts now location a s r Hlt. unfold updateLocation.
    destruct (isMountedRef s); simpl; [|done].
    destruct (Z.ltb_spec now (cl_timestamp r)); [done | lia].
  - intros opts now location a s c Hm Hfresh. unfold updateLocation.
    rewrite Hm. simpl. destruct c as [r|]; [|done].
    specialize (Hfresh r eq_refl).
    destruct (Z.ltb_spec now (cl_timestamp r)); [lia | done].
Qed.

(** C4.  What [isCacheValid] computes: the TTL stored in the record decides
    whenever it is present and not zero; the TTL of the calling instance is
    used only otherwise.  With a record stamped 0 carrying TTL 300000, an
    instance whose own TTL is 1000 still finds the cache valid at time 5000,
    although 5000 - 0 < 1000 is false. *)
Theorem C4_stored_ttl_shadows_instance_ttl :
  (forall opts now c,
      isCacheValid opts now (Some c)
      = (now - cl_timestamp c <?
           match cl_cacheTTL c with
           | Some stored => if stored =? 0 then cacheTTL opts else stored
           | None => cacheTTL opts
           end))
  /\ (forall opts now, isCacheValid opts now None = false)
  /\ (let opts := mkOptions 1000 LAST_KNOWN_POSITION_MAX_AGE Low Balanced true
                    SIGNIFICANT_CHANGE_THRESHOLD true in
      let record := mkCached (mkCoords 0 0 None) None 0 (Some 300000) in
      isCacheValid opts 5000 (Some record) = true
      /\ (5000 - cl_timestamp record <? cacheTTL opts) = false).
Proof.
  split; [|split].
  - intros opts now c. unfold isCacheValid, js_or. done.
  - done.
  - split; reflexivity.
Qed.

(** ** Significant change *)

Lemma SFltb_irrefl f : SFltb f f = false.
Proof.
  destruct f as [s|s| |s m e]; try done; try (by destruct s).
  unfold SFltb. simpl. rewrite Z.compare_refl, Pos.compare_cont_refl.
  by destruct s.
Qed.

Lemma SFcompare_Eq_ltb x y : SFcompare x y = Some Eq -> SFltb y x = false.
Proof.
  destruct x as [sx|sx| |sx mx ex], y as [sy|sy| |sy my ey]; simpl;
    try done; try (by destruct sx); try (by destruct sy);
    try (by destruct sx, sy).
  intros H.
  assert (E : sx = sy /\ ex = ey /\ mx = my).
  { change (Pos.compare_cont Eq mx my) with (Pos.compare mx my) in H.
    destruct sx, sy; try done; injection H as H;
      destruct (Z.compare_spec ex ey) as [He| |]; try done;
      destruct (Pos.compare_spec mx my) as [Hm| |]; done. }
  destruct E as (-> & -> & ->). apply SFltb_irrefl.
Qed.

Lemma number_gt_equal (x y : float) :
  (x =? y)%float = true -> number_gt x y = false.
Proof.
  unfold number_gt. rewrite FloatAxioms.eqb_spec, FloatAxioms.ltb_spec.
  unfold SFeqb.
  destruct (SFcompare (Prim2SF x) (Prim2SF y)) as [[]|] eqn:E; try done.
  intros _. by apply SFcompare_Eq_ltb.
Qed.

(** C8 (as the code has it).  [hasSignificantChange] is true exactly when
    the absolute value of the latitude difference or that of the longitude
    difference, each computed in double precision as the code computes it,
    is strictly greater than the threshold.  A refined fix whose two
    computed differences both equal the threshold is not significant, and
    the continuation of the refined position then starts no address lookup
    for it. *)
Theorem C8_significant_change_is_strict threshold oldCoords newCoords :
  (hasSignificantChange threshold oldCoords newCoords = true
   <-> (threshold <? abs (latitude newCoords - latitude oldCoords))%float
       = true
       \/ (threshold <? abs (longitude newCoords - longitude oldCoords))%float
          = true)
  /\ ((abs (latitude newCoords - latitude oldCoords) =? threshold)%float
      = true ->
      (abs (longitude newCoords - longitude oldCoords) =? threshold)%float
      = true ->
      hasSignificantChange threshold oldCoords newCoords = false
      /\ forall opts signal t1 t2 s,
           significantChangeThreshold opts = threshold ->
           onRefined opts signal (mkLocation oldCoords t1)
             (mkLocation newCoords t2) s = []).
Proof.
  split.
  - unfold hasSignificantChange, number_gt. by rewrite orb_true_iff.
  - intros Hlat Hlng.
    assert (H : hasSignificantChange threshold oldCoords newCoords = false).
    { unfold hasSignificantChange.
      by rewrite (number_gt_equal _ _ Hlat), (number_gt_equal _ _ Hlng). }
    split; [exact H|].
    intros opts signal t1 t2 s Ht. unfold onRefined. simpl.
    rewrite Ht, H. by rewrite andb_false_r.
Qed.

(** The exact difference of two coordinates can exceed the threshold while
    the difference the code computes does not: between the latitudes
    2.000000000000001e-05 and 0.00012000000000000002 the exact difference is
    strictly greater than the number 0.0001, the computed one is 0.0001, and
    the change is not significant. *)
Lemma C8_counterexample :
  let oldCoords := mkCoords 2.000000000000001e-05 0 None in
  let newCoords := mkCoords 0.00012000000000000002 0 None in
  let threshold := 0.0001%float in
  (exists a b t,
      exactValue (latitude newCoords) = Some a
      /\ exactValue (latitude oldCoords) = Some b
      /\ exactValue threshold = Some t
      /\ (t < Qabs (a - b))%Q)
  /\ abs (latitude newCoords - latitude oldCoords) = threshold
  /\ hasSignificantChange threshold oldCoords newCoords = false.
Proof.
  intros oldCoords newCoords threshold. split; [|split].
  - eexists _, _, _.
    split; [vm_compute; reflexivity|].
    split; [vm_compute; reflexivity|].
    split; [vm_compute; reflexivity|].
    vm_compute. reflexivity.
  - vm_compute. reflexivity.
  - vm_compute. reflexivity.
Qed.

(** ** Race strategy *)

(** C6.  Whatever the two position sources do (a fix, no fix, a rejection),
    in whichever order they settle and whatever the cancellation flag reads,
    the promise of [fetchLocationWithRace] is fulfilled, never rejected.  When
    the signal is not aborted, its value is the fix of the source that settled
    first if that source produced one; otherwise the fix of the last-known
    query if it produced one, otherwise the fix of the fresh low-accuracy
    query if it produced one, otherwise null. *)
Theorem C6_race_result (r : RaceRun) :
  (exists v, fetchLocationWithRace r = Fulfilled v)
  /\ (abortedAtLastKnown r = false ->
      abortedAtNewPosition r = false ->
      abortedAfterRace r = false ->
      abortedAfterAllSettled r = false ->
      fetchLocationWithRace r
      = Fulfilled
          match (if lastKnownSettlesFirst r
                 then lastKnownFix (lastKnownReply r)
                 else newPositionFix (newPositionReply r)) with
          | Some winner => Some winner
          | None =>
              match lastKnownFix (lastKnownReply r) with
              | Some l => Some l
              | None => newPositionFix (newPositionReply r)
              end
          end).
Proof.
  destruct r as [lk np first a1 a2 a3 a4]. split.
  - unfold fetchLocationWithRace; simpl.
    destruct lk as [[l|]|e], np as [n|e'], first, a1, a2, a3, a4;
      simpl; eauto.
  - simpl. intros -> -> -> ->.
    unfold fetchLocationWithRace; simpl.
    destruct lk as [[l|]|e], np as [n|e'], first; reflexivity.
Qed.

(** A run in which the last-known query settles first without a fix and the
    fresh query then succeeds. *)
Lemma C6_race_result_witness :
  let fix_ := mkLocation (mkCoords 10 20 None) 1000 in
  fetchLocationWithRace
    (mkRace (Fulfilled None) (Fulfilled fix_) true false false false false)
  = Fulfilled (Some fix_).
Proof.
  intros fix_.
  exact (proj2 (C6_race_result
    (mkRace (Fulfilled None) (Fulfilled fix_) true false false false false))
    eq_refl eq_refl eq_refl eq_refl).
Defined.

(** ** Consumer session *)

Lemma refreshTimes_while_fetching n s :
  isFetchingRef s = true -> refreshTimes n s = (s, []).
Proof.
  intros Hf. induction n as [|n IH]; [done|].
  simpl. unfold refresh, fetchLocation. rewrite Hf, IH. done.
Qed.

(** C7.  While the in-flight flag of a session is set, [refresh()] returns at
    once: the session is unchanged, no fetch is started and no provider call
    is made, however many times it is called.  A [refresh()] that does start
    a fetch sets the flag and makes one provider call, and the flag is still
    set once permission has been granted and the race is running, so the
    calls repeated during the fetch add nothing. *)
Theorem C7_refresh_noop_while_fetching :
  (forall s, isFetchingRef s = true ->
     refresh s = (s, None, [])
     /\ forall n, refreshTimes n s = (s, []))
  /\ (forall s, isFetchingRef s = false ->
       exists s' signal,
         refresh s = (s', Some signal, [RequestForegroundPermissions])
         /\ isFetchingRef s' = true
         /\ (forall n, refreshTimes n s' = (s', []))
         /\ (forall opts, aborted signal s' = false ->
               exists calls,
                 fetchLocation_permission opts signal (Fulfilled Granted) s'
                 = (s', true, calls))).
Proof.
  split.
  - intros s Hf. split.
    + unfold refresh, fetchLocation. by rewrite Hf.
    + intros n. by apply refreshTimes_while_fetching.
  - intros s Hf. unfold refresh, fetchLocation. rewrite Hf.
    destruct (newAbortController (abortCurrent s)) as [s2 signal] eqn:E.
    eexists _, signal. split; [reflexivity|].
    assert (Hflag : isFetchingRef
      (safeSetState setError None
         (safeSetState setLoading true (setIsFetching true s2))) = true).
    { destruct s2 as [? ? ? ? mounted ? ? ? ? ?]. by destruct mounted. }
    split; [exact Hflag|]. split.
    + intros n. by apply refreshTimes_while_fetching.
    + intros opts Hna. unfold fetchLocation_permission. rewrite Hna.
      eexists. reflexivity.
Qed.

(** Three calls of [refresh()] on a session that is fetching. *)
Lemma C7_refresh_noop_while_fetching_witness :
  refreshTimes 3 (setIsFetching true initialSession)
  = (setIsFetching true initialSession, []).
Proof.
  exact (proj2 (proj1 C7_refresh_noop_while_fetching
                  (setIsFetching true initialSession) eq_refl) 3%nat).
Defined.

Lemma catch_publishes signal message s :
  isMountedRef s = true -> aborted signal s = false ->
  failedWith message
    (fetchLocation_finally (fetchLocation_catch signal (ErrorValue message) s)).
Proof.
  intros Hm Hna. unfold fetchLocation_catch. rewrite Hna, Hm.
  destruct s as [c a l e mounted f h ctl nxt ab]. simpl in Hm. subst mounted.
  unfold failedWith. simpl. repeat split.
  unfold refresh, fetchLocation. simpl.
  destruct ctl; simpl; eauto.
Qed.

(** C9.  When a fetch of a mounted session whose signal is not aborted fails
    at the top level, either because the permission status is not "granted"
    or because the race strategy yields null, the session ends with
    coordinate and address absent, loading false, the matching message
    published as the error and the in-flight flag cleared, so that the next
    [refresh()] starts a new fetch. *)
Theorem C9_failure_clears_state_and_allows_retry opts signal s :
  isMountedRef s = true ->
  aborted signal s = false ->
  (forall status, status <> Granted ->
     exists s',
       fetchLocation_permission opts signal (Fulfilled status) s = (s', false, [])
       /\ failedWith PERMISSION_MESSAGE s')
  /\ (exists s',
        fetchLocation_located opts signal (Fulfilled None) s = (s', [])
        /\ failedWith NO_FIX_MESSAGE s').
Proof.
  intros Hm Hna. split.
  - intros status Hs. unfold fetchLocation_permission. rewrite Hna.
    destruct status; [done | |]; eexists; (split; [reflexivity|]);
      by apply catch_publishes.
  - unfold fetchLocation_located. rewrite Hna.
    eexists; split; [reflexivity|]. by apply catch_publishes.
Qed.

(** A freshly started fetch on the initial session, refused permission. *)
Lemma C9_failure_clears_state_and_allows_retry_witness :
  let s := (fetchLocation initialSession).1.1 in
  exists s',
    fetchLocation_permission defaultOptions 0%nat (Fulfilled Denied) s
    = (s', false, [])
    /\ failedWith PERMISSION_MESSAGE s'.
Proof.
  intros s.
  refine (proj1 (C9_failure_clears_state_and_allows_retry
                   defaultOptions 0%nat s _ _) Denied _).
  - reflexivity.
  - vm_compute. reflexivity.
  - discriminate.
Defined.

(** Three writes relative to a record stamped 100: an earlier prefix, a stale
    call at 50 and a fresh call at 150. *)
Lemma C1_location_cache_timestamps_monotone_witness :
  let loc := mkLocation (mkCoords 10 20 None) 0 in
  let r := mkCached (mkCoords 10 20 None) None 100 (Some CACHE_TTL) in
  let fresh := mkCached (mkCoords 10 20 None) None 150 (Some CACHE_TTL) in
  (exists r',
     applyWrites
       ([ByUpdateLocation defaultOptions 100 loc None initialSession]
        ++ [ByUpdateLocation defaultOptions 50 loc None initialSession]) None
     = Some r' /\ cl_timestamp r <= cl_timestamp r')
  /\ updateLocation defaultOptions 50 loc None initialSession (Some r)
     = (initialSession, Some r, [])
  /\ updateLocation defaultOptions 150 loc None initialSession (Some r)
     = (setAddress None (setCoords (Some (mkCoords 10 20 None)) initialSession),
        Some fresh, [PersistLocation fresh]).
Proof.
  intros loc r fresh.
  destruct C1_location_cache_timestamps_monotone as (Hseq & Hstale & Hfresh).
  split; [|split].
  - apply (Hseq [ByUpdateLocation defaultOptions 100 loc None initialSession]
             [ByUpdateLocation defaultOptions 50 loc None initialSession]
             None r).
    reflexivity.
  - apply (Hstale defaultOptions 50 loc None initialSession r).
    reflexivity.
  - apply (Hfresh defaultOptions 150 loc None initialSession (Some r)).
    + reflexivity.
    + intros r0 [= <-]. vm_compute. discriminate.
Defined.

(** A refined fix exactly one threshold away on both axes. *)
Lemma C8_significant_change_is_strict_witness :
  hasSignificantChange SIGNIFICANT_CHANGE_THRESHOLD
    (mkCoords 0 0 None) (mkCoords 0.0001 0.0001 None) = false.
Proof.
  apply (proj2 (C8_significant_change_is_strict SIGNIFICANT_CHANGE_THRESHOLD
                  (mkCoords 0 0 None) (mkCoords 0.0001 0.0001 None)));
    vm_compute; reflexivity.
Defined.

(** ** Geocoding helper *)

Lemma reverseGeocodeAsync_starts coords now st :
  validEntry now (reverseGeocodeCache st !! createCacheKey coords) = false ->
  pendingReverseGeocodeRequests st !! createCacheKey coords = None ->
  reverseGeocodeAsync coords false now st
  = (mkGeocode (reverseGeocodeCache st)
       (<[createCacheKey coords := nextPromise st]>
          (pendingReverseGeocodeRequests st))
       (<[nextPromise st := mkRequest (createCacheKey coords) coords]>
          (running st))
       (settledPromises st) (S (nextPromise st))
       (cleanupScheduled st) (cleanupTimeoutId st)
       (externalCalls st ++ [(latitude coords, longitude coords)]),
     ReturnsPromise (nextPromise st)).
Proof.
  intros Hv Hp. unfold reverseGeocodeAsync. simpl. rewrite Hv, Hp. done.
Qed.

Lemma reverseGeocodeAsync_keeps coords signalAborted now st :
  signalAborted = true
  \/ validEntry now (reverseGeocodeCache st !! createCacheKey coords) = true
  \/ is_Some (pendingReverseGeocodeRequests st !! createCacheKey coords) ->
  (reverseGeocodeAsync coords signalAborted now st).1 = st.
Proof.
  intros H. unfold reverseGeocodeAsync.
  destruct signalAborted; [done|].
  destruct (validEntry now _); [done|].
  destruct H as [H | [H | [p Hp]]]; [done | done |].
  rewrite Hp. done.
Qed.

Lemma reverseGeocodeAsync_step_cases coords signalAborted now st :
  (reverseGeocodeAsync coords signalAborted now st).1 = st
  \/ (signalAborted = false
      /\ validEntry now (reverseGeocodeCache st !! createCacheKey coords) = false
      /\ pendingReverseGeocodeRequests st !! createCacheKey coords = None).
Proof.
  destruct signalAborted.
  { left. apply reverseGeocodeAsync_keeps. by left. }
  destruct (validEntry now (reverseGeocodeCache st !! createCacheKey coords)) eqn:Hv.
  { left. apply reverseGeocodeAsync_keeps. right. by left. }
  destruct (pendingReverseGeocodeRequests st !! createCacheKey coords) as [p|] eqn:Hp.
  { left. apply reverseGeocodeAsync_keeps. right. right. rewrite Hp. eauto. }
  by right.
Qed.

Lemma resumeRequest_shape p rq outcome signalAborted now st :
  running st !! p = Some rq ->
  exists result cache scheduled timer,
    resumeRequest p outcome signalAborted now st
    = mkGeocode cache
        (delete (rq_cacheKey rq) (pendingReverseGeocodeRequests st))
        (delete p (running st))
        (<[p := result]> (settledPromises st))
        (nextPromise st) scheduled timer (externalCalls st).
Proof.
  intros Hr. unfold resumeRequest. rewrite Hr.
  destruct outcome as [addresses | e]; [destruct signalAborted|].
  - eauto 10.
  - destruct (bool_decide _); [destruct (cleanupScheduled st)|]; eauto 10.
  - eauto 10.
Qed.

Lemma GeocodeInv_initial : GeocodeInv initialGeocode.
Proof.
  unfold GeocodeInv, initialGeocode; simpl. split; [|split].
  - intros p rq H. by rewrite lookup_empty in H.
  - intros k p H. by rewrite lookup_empty in H.
  - intros p [rq H]. by rewrite lookup_empty in H.
Qed.

Lemma GeocodeInv_call coords signalAborted now st :
  GeocodeInv st ->
  GeocodeInv (reverseGeocodeAsync coords signalAborted now st).1.
Proof.
  intros (I1 & I2 & I3).
  destruct (reverseGeocodeAsync_step_cases coords signalAborted now st)
    as [-> | (-> & Hv & Hp)]; [done|].
  rewrite reverseGeocodeAsync_starts by done.
  set (k := createCacheKey coords) in *. set (np := nextPromise st).
  unfold GeocodeInv; simpl. split; [|split].
  - intros p rq Hrun. destruct (decide (p = np)) as [->|Hne].
    + rewrite lookup_insert_eq in Hrun. injection Hrun as <-. simpl.
      by rewrite lookup_insert_eq.
    + rewrite lookup_insert_ne in Hrun by done.
      pose proof (I1 _ _ Hrun) as Hpend.
      rewrite lookup_insert_ne; [done|]. intros Heq. congruence.
  - intros k' p Hpend. destruct (decide (k' = k)) as [->|Hne].
    + rewrite lookup_insert_eq in Hpend. injection Hpend as <-.
      exists (mkRequest k coords). by rewrite lookup_insert_eq.
    + rewrite lookup_insert_ne in Hpend by done.
      destruct (I2 _ _ Hpend) as (rq & Hrun & Hk).
      exists rq. split; [|done].
      rewrite lookup_insert_ne; [done|].
      assert (p < np)%nat by (apply I3; eauto). lia.
  - intros p [rq Hrun]. destruct (decide (p = np)) as [->|Hne]; [lia|].
    rewrite lookup_insert_ne in Hrun by done.
    assert (p < np)%nat by (apply I3; eauto). lia.
Qed.

Lemma GeocodeInv_resume p outcome signalAborted now st :
  GeocodeInv st ->
  GeocodeInv (resumeRequest p outcome signalAborted now st).
Proof.
  intros (I1 & I2 & I3).
  destruct (running st !! p) as [rq|] eqn:Hr.
  2: { unfold resumeRequest. rewrite Hr. done. }
  destruct (resumeRequest_shape p rq outcome signalAborted now st Hr)
    as (result & cache & scheduled & timer & ->).
  unfold GeocodeInv; simpl. split; [|split].
  - intros p' rq' Hrun. apply lookup_delete_Some in Hrun as [Hne Hrun].
    pose proof (I1 _ _ Hrun) as Hpend. pose proof (I1 _ _ Hr) as Hpend0.
    rewrite lookup_delete_ne; [done|]. intros Heq. congruence.
  - intros k p' Hpend. apply lookup_delete_Some in Hpend as [Hne Hpend].
    destruct (I2 _ _ Hpend) as (rq' & Hrun & Hk).
    exists rq'. split; [|done].
    rewrite lookup_delete_ne; [done|]. intros <-. congruence.
  - intros p' [rq' Hrun]. apply lookup_delete_Some in Hrun as [_ Hrun].
    apply I3. eauto.
Qed.

Lemma GeocodeInv_step st ev : GeocodeInv st -> GeocodeInv (geocodeStep st ev).
Proof.
  intros I. destruct ev as [coords ab now | p outcome ab now | now]; simpl.
  - by apply GeocodeInv_call.
  - by apply GeocodeInv_resume.
  - unfold cleanupTimerFires. by destruct (cleanupTimeoutId st).
Qed.

Lemma GeocodeInv_run evs : forall st,
  GeocodeInv st -> GeocodeInv (geocodeRun evs st).
Proof.
  induction evs as [|ev evs IH]; intros st I; [done|].
  simpl. apply IH. by apply GeocodeInv_step.
Qed.

Lemma validEntry_later t0 t2 cached :
  t0 <= t2 -> validEntry t0 cached = false -> validEntry t2 cached = false.
Proof.
  unfold validEntry. destruct cached as [e|]; [|done].
  intros Hle H. apply Z.ltb_ge in H. apply Z.ltb_ge. lia.
Qed.

(** C5.  In every state the helper can reach:
    - no two requests in flight belong to the same bucket;
    - a call arriving while a request for its bucket is pending starts
      nothing (no new request body, no external call), and unless its own
      signal is already aborted or a valid entry is cached it is handed that
      very pending promise;
    - a promise handed out is, on return from that same synchronous call,
      the one registered in the pending map under the bucket;
    - when a request settles, however the external call ended and whatever
      the signal reads, its bucket is removed from the pending map and
      nothing is left in flight for it. *)
Theorem C5_single_flight_per_bucket (evs : list GeocodeEvent) :
  let st := geocodeRun evs initialGeocode in
  (forall p1 p2 rq1 rq2,
      running st !! p1 = Some rq1 -> running st !! p2 = Some rq2 ->
      rq_cacheKey rq1 = rq_cacheKey rq2 -> p1 = p2)
  /\ (forall coords signalAborted now p,
        pendingReverseGeocodeRequests st !! createCacheKey coords = Some p ->
        let call := reverseGeocodeAsync coords signalAborted now st in
        call.1 = st
        /\ (signalAborted = false ->
            validEntry now (reverseGeocodeCache st !! createCacheKey coords)
            = false ->
            call.2 = ReturnsPromise p))
  /\ (forall coords signalAborted now p,
        let call := reverseGeocodeAsync coords signalAborted now st in
        call.2 = ReturnsPromise p ->
        pendingReverseGeocodeRequests call.1 !! createCacheKey coords = Some p
        /\ exists rq, running call.1 !! p = Some rq
                      /\ rq_cacheKey rq = createCacheKey coords)
  /\ (forall p rq outcome signalAborted now,
        running st !! p = Some rq ->
        let st' := resumeRequest p outcome signalAborted now st in
        pendingReverseGeocodeRequests st' !! rq_cacheKey rq = None
        /\ is_Some (settledPromises st' !! p)
        /\ forall p' rq', running st' !! p' = Some rq' ->
                          rq_cacheKey rq' <> rq_cacheKey rq).
Proof.
  intros st.
  assert (I : GeocodeInv st) by (apply GeocodeInv_run, GeocodeInv_initial).
  split; [|split; [|split]].
  - destruct I as (I1 & _ & _). intros p1 p2 rq1 rq2 H1 H2 Hk.
    pose proof (I1 _ _ H1) as E1. pose proof (I1 _ _ H2) as E2.
    rewrite Hk in E1. congruence.
  - intros coords ab now p Hp call. split.
    + apply reverseGeocodeAsync_keeps. right. right. rewrite Hp. eauto.
    + intros -> Hv. subst call. unfold reverseGeocodeAsync.
      rewrite Hv, Hp. done.
  - intros coords ab now p call Hret.
    assert (I' : GeocodeInv call.1) by by apply GeocodeInv_call.
    assert (Hp : pendingReverseGeocodeRequests call.1 !! createCacheKey coords
                 = Some p).
    { subst call. revert Hret. unfold reverseGeocodeAsync.
      destruct ab; [done|].
      destruct (validEntry now _); [done|].
      destruct (pendingReverseGeocodeRequests st !! createCacheKey coords)
        as [q|] eqn:Hq; simpl.
      - intros [= <-]. done.
      - intros [= <-]. by rewrite lookup_insert_eq. }
    split; [exact Hp|]. destruct I' as (_ & I2 & _). by apply I2.
  - intros p rq outcome ab now Hr st'.
    assert (I' : GeocodeInv st') by by apply GeocodeInv_resume.
    destruct (resumeRequest_shape p rq outcome ab now st Hr)
      as (result & cache & scheduled & timer & E).
    assert (Hp : pendingReverseGeocodeRequests st' !! rq_cacheKey rq = None).
    { subst st'. rewrite E. simpl. apply lookup_delete_eq. }
    split; [exact Hp|]. split.
    + subst st'. rewrite E. simpl. rewrite lookup_insert_eq. eauto.
    + intros p' rq' Hrun Hk. destruct I' as (I1 & _ & _).
      pose proof (I1 _ _ Hrun) as Hc. rewrite Hk in Hc. congruence.
Qed.

(** A second caller for the bucket of (10, 20) while the first request is
    in flight. *)
Lemma C5_single_flight_per_bucket_witness :
  let c := mkCoords 10 20 None in
  let st := geocodeRun [HelperCalled c false 0] initialGeocode in
  reverseGeocodeAsync c false 1 st = (st, ReturnsPromise 0%nat).
Proof.
  intros c st.
  pose proof (proj1 (proj2 (C5_single_flight_per_bucket [HelperCalled c false 0]))
                c false 1 0%nat) as H.
  cbv zeta in H. fold st in H.
  destruct H as [H1 H2]; [vm_compute; reflexivity|].
  rewrite (surjective_pairing (reverseGeocodeAsync c false 1 st)).
  rewrite H1, H2; [reflexivity | reflexivity | vm_compute; reflexivity].
Defined.

(** C3 (as the code has it).  When the external call of a request in flight
    returns while the signal of its requester reads aborted, the request
    still settles and its bucket is removed from the pending map, but the
    result is dropped: the geocode cache is left exactly as it was, and the
    request promise, which the requester and every caller sharing it hold,
    is fulfilled with null. *)
Theorem C3_aborted_request_discards_result st p rq addresses now :
  running st !! p = Some rq ->
  let st' := resumeRequest p (GeocoderReturns addresses) true now st in
  reverseGeocodeCache st' = reverseGeocodeCache st
  /\ received (ReturnsPromise p) st' = Some None
  /\ pendingReverseGeocodeRequests st' !! rq_cacheKey rq = None
  /\ running st' !! p = None
  /\ externalCalls st' = externalCalls st.
Proof.
  intros Hr st'. subst st'. unfold resumeRequest. rewrite Hr. simpl.
  repeat split.
  - apply lookup_insert_eq.
  - apply lookup_delete_eq.
  - apply lookup_delete_eq.
Qed.

(** The request for (10, 20), aborted while its external call is out. *)
Lemma C3_aborted_request_discards_result_witness :
  let c := mkCoords 10 20 None in
  let st := (reverseGeocodeAsync c false 0 initialGeocode).1 in
  let st' := resumeRequest 0 (GeocoderReturns [mkAddress "Main St" "Springfield" "US"])
               true 5 st in
  reverseGeocodeCache st' = reverseGeocodeCache st
  /\ received (ReturnsPromise 0%nat) st' = Some None.
Proof.
  intros c st st'.
  destruct (C3_aborted_request_discards_result st 0%nat
              (mkRequest (createCacheKey c) c)
              [mkAddress "Main St" "Springfield" "US"] 5)
    as (H1 & H2 & _).
  - vm_compute. reflexivity.
  - split; [exact H1 | exact H2].
Defined.

(** The claim that the result of such a request is still stored fails: a
    request for (10, 20) is started, its signal is aborted while the
    external call is out, the call returns an address; afterwards the cache
    has no entry for the bucket, and the requester holds null. *)
Lemma C3_counterexample :
  let c := mkCoords 10 20 None in
  let a := mkAddress "Main St" "Springfield" "US" in
  let call := reverseGeocodeAsync c false 0 initialGeocode in
  let st' := resumeRequest 0 (GeocoderReturns [a]) true 5 call.1 in
  call.2 = ReturnsPromise 0%nat
  /\ running call.1 !! 0%nat = Some (mkRequest (createCacheKey c) c)
  /\ received call.2 st' = Some None
  /\ ~ (exists e, reverseGeocodeCache st' !! createCacheKey c = Some e).
Proof.
  intros c a call st'. split; [|split; [|split]].
  - vm_compute. reflexivity.
  - vm_compute. reflexivity.
  - vm_compute. reflexivity.
  - intros [e He]. vm_compute in He. discriminate.
Qed.

Lemma reverseGeocodeAsync_external_call coords now st :
  validEntry now (reverseGeocodeCache st !! createCacheKey coords) = false ->
  pendingReverseGeocodeRequests st !! createCacheKey coords = None ->
  externalCalls (reverseGeocodeAsync coords false now st).1
  = externalCalls st ++ [(latitude coords, longitude coords)].
Proof. intros Hv Hp. by rewrite reverseGeocodeAsync_starts. Qed.

Lemma resumeRequest_throws p rq reason signalAborted now st :
  running st !! p = Some rq ->
  let st' := resumeRequest p (GeocoderThrows reason) signalAborted now st in
  reverseGeocodeCache st' = reverseGeocodeCache st
  /\ settledPromises st' !! p = Some None
  /\ pendingReverseGeocodeRequests st' !! rq_cacheKey rq = None
  /\ externalCalls st' = externalCalls st.
Proof.
  intros Hr st'. subst st'. unfold resumeRequest. rewrite Hr. cbn.
  repeat split; [apply lookup_insert_eq | apply lookup_delete_eq].
Qed.

(** C10.  Failure: a lookup that misses the cache with nothing pending
    starts a request; if the external call of that request throws, the
    request promise is fulfilled with null and the cache is what it was
    before the lookup, so a later lookup for the same bucket (the clock not
    having gone back) contacts the external capability again.
    Absent address: if the external call returns no address while the signal
    is not aborted, null is stored under the bucket with the completion
    time; until the TTL has elapsed a lookup for the bucket returns that
    null at once and changes nothing (no external call), and from then on a
    lookup contacts the external capability again. *)
Theorem C10_failure_uncached_absent_address_cached :
  (forall st coords t0 reason signalAborted t1 coords' t2,
      validEntry t0 (reverseGeocodeCache st !! createCacheKey coords) = false ->
      pendingReverseGeocodeRequests st !! createCacheKey coords = None ->
      createCacheKey coords' = createCacheKey coords ->
      t0 <= t2 ->
      let call := reverseGeocodeAsync coords false t0 st in
      let st2 := resumeRequest (nextPromise st) (GeocoderThrows reason)
                   signalAborted t1 call.1 in
      call.2 = ReturnsPromise (nextPromise st)
      /\ received call.2 st2 = Some None
      /\ reverseGeocodeCache st2 = reverseGeocodeCache st
      /\ externalCalls (reverseGeocodeAsync coords' false t2 st2).1
         = externalCalls st2 ++ [(latitude coords', longitude coords')])
  /\ (forall st p rq t1,
        running st !! p = Some rq ->
        let st2 := resumeRequest p (GeocoderReturns []) false t1 st in
        received (ReturnsPromise p) st2 = Some None
        /\ reverseGeocodeCache st2 !! rq_cacheKey rq = Some (mkEntry None t1)
        /\ (forall coords' t2,
              createCacheKey coords' = rq_cacheKey rq ->
              t2 - t1 < REVERSE_GEOCODE_CACHE_TTL ->
              reverseGeocodeAsync coords' false t2 st2 = (st2, ReturnsValue None))
        /\ (forall coords' t2,
              createCacheKey coords' = rq_cacheKey rq ->
              REVERSE_GEOCODE_CACHE_TTL <= t2 - t1 ->
              externalCalls (reverseGeocodeAsync coords' false t2 st2).1
              = externalCalls st2 ++ [(latitude coords', longitude coords')])).
Proof.
  split.
  - intros st coords t0 reason ab t1 coords' t2 Hv Hp Hk Hle call st2.
    assert (Ecall : call = reverseGeocodeAsync coords false t0 st) by done.
    rewrite reverseGeocodeAsync_starts in Ecall by done.
    assert (Hrun : running call.1 !! nextPromise st
                   = Some (mkRequest (createCacheKey coords) coords)).
    { rewrite Ecall. cbn. apply lookup_insert_eq. }
    assert (Hcache : reverseGeocodeCache call.1 = reverseGeocodeCache st).
    { by rewrite Ecall. }
    destruct (resumeRequest_throws _ _ reason ab t1 _ Hrun)
      as (H1 & H2 & H3 & _).
    fold st2 in H1, H2, H3. cbn in H3.
    split; [by rewrite Ecall|]. split.
    { rewrite Ecall. cbn. exact H2. }
    split; [by rewrite H1|].
    apply reverseGeocodeAsync_external_call; rewrite Hk.
    + rewrite H1, Hcache. by apply (validEntry_later t0).
    + exact H3.
  - intros st p rq t1 Hr st2.
    assert (E : st2 = resumeRequest p (GeocoderReturns []) false t1 st) by done.
    unfold resumeRequest in E. rewrite Hr in E. simpl in E.
    assert (Hc : reverseGeocodeCache st2 !! rq_cacheKey rq
                 = Some (mkEntry None t1)).
    { rewrite E. destruct (bool_decide _); [destruct (cleanupScheduled st)|];
        simpl; apply lookup_insert_eq. }
    assert (Hp : pendingReverseGeocodeRequests st2 !! rq_cacheKey rq = None).
    { rewrite E. destruct (bool_decide _); [destruct (cleanupScheduled st)|];
        simpl; apply lookup_delete_eq. }
    split; [|split; [exact Hc|split]].
    + rewrite E. destruct (bool_decide _); [destruct (cleanupScheduled st)|];
        simpl; apply lookup_insert_eq.
    + intros coords' t2 Hk Hlt. unfold reverseGeocodeAsync.
      rewrite Hk, Hc. simpl.
      destruct (Z.ltb_spec (t2 - t1) REVERSE_GEOCODE_CACHE_TTL); [done | lia].
    + intros coords' t2 Hk Hge.
      apply reverseGeocodeAsync_external_call; rewrite Hk; [|exact Hp].
      rewrite Hc. simpl. apply Z.ltb_ge. lia.
Qed.

(** A failed lookup for (10, 20) followed by a retry, and an address-less
    answer served from the cache one second later. *)
Lemma C10_failure_uncached_absent_address_cached_witness :
  let c := mkCoords 10 20 None in
  let call := reverseGeocodeAsync c false 0 initialGeocode in
  let failed := resumeRequest 0 (GeocoderThrows OtherValue) false 5 call.1 in
  let empty := resumeRequest 0 (GeocoderReturns []) false 5 call.1 in
  externalCalls (reverseGeocodeAsync c false 10 failed).1
  = externalCalls failed ++ [(latitude c, longitude c)]
  /\ reverseGeocodeAsync c false 1005 empty = (empty, ReturnsValue None).
Proof.
  intros c call failed empty.
  destruct C10_failure_uncached_absent_address_cached as [Hfail Hnull].
  split.
  - refine (proj2 (proj2 (proj2
      (Hfail initialGeocode c 0 OtherValue false 5 c 10 _ _ _ _)))).
    + reflexivity.
    + reflexivity.
    + reflexivity.
    + lia.
  - refine (proj1 (proj2 (proj2
      (Hnull call.1 0%nat (mkRequest (createCacheKey c) c) 5 _))) c 1005 _ _).
    + vm_compute. reflexivity.
    + reflexivity.
    + reflexivity.
Defined.

(** ** Fetch mutex *)

Lemma cancellation_leaves_mutex sys i :
  mutex (lockStep sys (CancelledPoll i)) = mutex sys.
Proof.
  simpl. destruct (phases sys !! i) as [[]|]; reflexivity.
Qed.

(** C2.  What the code does with a cancelled waiter.  The cancellation path
    never touches the mutex, so the closure of a cancelled waiter stays in
    the queue.  With acquirer 1 holding the lock and acquirers 2 and 3
    queued in that order, cancelling 2 leaves the queue [2; 3]; when 1
    releases, the closure that runs is that of 2: the mutex is locked on
    behalf of 2, which has already given up and holds no handle, while 3 is
    still parked behind a locked mutex. *)
Theorem C2_cancelled_waiter_keeps_its_place :
  (forall sys i, mutex (lockStep sys (CancelledPoll i)) = mutex sys)
  /\ (let sys := lockRun [Acquires 1; Acquires 2; Acquires 3; CancelledPoll 2]
                   lockSystem0 in
      let sys' := lockStep sys (Releases 1) in
      phases sys !! 2%nat = Some GaveUp
      /\ waiters (mutex sys) = [2; 3]%nat
      /\ (release (mutex sys)).2 = Some 2%nat
      /\ mutex sys' = mkMutex true [3%nat]
      /\ phases sys' !! 2%nat = Some GaveUp
      /\ phases sys' !! 3%nat = Some AwaitingRace).
Proof.
  split; [apply cancellation_leaves_mutex|].
  vm_compute. repeat split.
Qed.

(** * Further properties of the hook *)

(** ** Significant change, continued *)

Lemma SFabs_binary_round prec emax s1 s2 m e :
  SFabs (binary_round prec emax s1 m e) = SFabs (binary_round prec emax s2 m e).
Proof.
  unfold binary_round. destruct (shl_align _ _ _) as [mz ez].
  unfold binary_round_aux.
  destruct (shr_fexp _ _ _ _ _) as [mrs' e'].
  destruct (shr_fexp _ _ _ _ _) as [mrs'' e''].
  destruct (shr_m mrs''); try done. by destruct (Z.leb _ _).
Qed.

Lemma SFabs_binary_normalize_opp prec emax z e :
  SFabs (binary_normalize prec emax (- z) e false)
  = SFabs (binary_normalize prec emax z e false).
Proof.
  destruct z; simpl; [done| |]; apply SFabs_binary_round.
Qed.

Lemma SFabs_SFsub_swap prec emax x y :
  SFabs (SFsub prec emax x y) = SFabs (SFsub prec emax y x).
Proof.
  destruct x as [sx|sx| |sx mx ex], y as [sy|sy| |sy my ey]; simpl;
    try done; try (by destruct sx, sy); try (by destruct sx);
    try (by destruct sy).
  rewrite (Z.min_comm ey ex).
  rewrite <- SFabs_binary_normalize_opp. f_equal. f_equal. lia.
Qed.

Lemma SFsub_diag prec emax x :
  SFabs (SFsub prec emax x x) = S754_nan
  \/ SFabs (SFsub prec emax x x) = S754_zero false.
Proof.
  destruct x as [s|s| |s m e]; simpl.
  - right. by destruct s.
  - left. by destruct s.
  - by left.
  - right. rewrite Z.sub_diag. done.
Qed.

Lemma abs_sub_swap (a b : float) : abs (a - b) = abs (b - a).
Proof.
  apply Prim2SF_inj.
  rewrite !FloatAxioms.abs_spec, !FloatAxioms.sub_spec.
  apply SFabs_SFsub_swap.
Qed.

Lemma number_gt_abs_sub_diag (t a : float) :
  (0 <=? t)%float = true -> number_gt (abs (a - a)) t = false.
Proof.
  unfold number_gt.
  rewrite FloatAxioms.leb_spec, FloatAxioms.ltb_spec, FloatAxioms.abs_spec,
    FloatAxioms.sub_spec.
  change (Prim2SF 0) with (S754_zero false). unfold SF64sub.
  destruct (SFsub_diag prec emax (Prim2SF a)) as [-> | ->].
  - intros _. unfold SFltb. by destruct (Prim2SF t).
  - unfold SFleb, SFltb.
    destruct (Prim2SF t) as [s|s| |s m e]; simpl; try done; by destruct s.
Qed.

(** X3.  [hasSignificantChange] does not depend on which of the two
    coordinates is the old one, and with a threshold that is not negative a
    coordinate is never a significant change from itself. *)
Theorem X3_significant_change_symmetric threshold a b :
  hasSignificantChange threshold a b = hasSignificantChange threshold b a
  /\ ((0 <=? threshold)%float = true ->
      hasSignificantChange threshold a a = false).
Proof.
  split.
  - unfold hasSignificantChange.
    by rewrite (abs_sub_swap (latitude b)), (abs_sub_swap (longitude b)).
  - intros Ht. unfold hasSignificantChange.
    by rewrite !number_gt_abs_sub_diag.
Qed.

Lemma X3_significant_change_symmetric_witness :
  hasSignificantChange SIGNIFICANT_CHANGE_THRESHOLD
    (mkCoords 10 20 None) (mkCoords 10 20 None) = false.
Proof.
  apply (proj2 (X3_significant_change_symmetric SIGNIFICANT_CHANGE_THRESHOLD
                  (mkCoords 10 20 None) (mkCoords 10 20 None))).
  vm_compute. reflexivity.
Defined.

(** ** Geocoding helper: hits, promises and cleanup *)

(** X4.  Store, then look up.  When the external call of a request returns
    while the signal is not aborted, the first address of the answer (null
    if there is none) is what the request promise is fulfilled with and what
    is stored under the bucket with the completion time; until the TTL has
    elapsed, every lookup by a caller that is not aborted, for any
    coordinate of that bucket, returns that value at once and leaves the
    state of the helper untouched. *)
Theorem X4_resolved_address_is_served_from_cache st p rq addresses t1 :
  running st !! p = Some rq ->
  let st2 := resumeRequest p (GeocoderReturns addresses) false t1 st in
  received (ReturnsPromise p) st2 = Some (head addresses)
  /\ reverseGeocodeCache st2 !! rq_cacheKey rq
     = Some (mkEntry (head addresses) t1)
  /\ (forall coords' t2,
        createCacheKey coords' = rq_cacheKey rq ->
        t2 - t1 < REVERSE_GEOCODE_CACHE_TTL ->
        reverseGeocodeAsync coords' false t2 st2
        = (st2, ReturnsValue (head addresses))).
Proof.
  intros Hr st2.
  assert (E : st2 = resumeRequest p (GeocoderReturns addresses) false t1 st)
    by done.
  unfold resumeRequest in E. rewrite Hr in E. simpl in E.
  assert (Hc : reverseGeocodeCache st2 !! rq_cacheKey rq
               = Some (mkEntry (head addresses) t1)).
  { rewrite E. destruct (bool_decide _); [destruct (cleanupScheduled st)|];
      simpl; apply lookup_insert_eq. }
  split; [|split; [exact Hc|]].
  - rewrite E. destruct (bool_decide _); [destruct (cleanupScheduled st)|];
      simpl; apply lookup_insert_eq.
  - intros coords' t2 Hk Hlt. unfold reverseGeocodeAsync.
    rewrite Hk, Hc. simpl.
    destruct (Z.ltb_spec (t2 - t1) REVERSE_GEOCODE_CACHE_TTL); [done | lia].
Qed.

(** An address resolved for (10, 20) at time 5, looked up one second
    later. *)
Lemma X4_resolved_address_is_served_from_cache_witness :
  let c := mkCoords 10 20 None in
  let a := mkAddress "Main St" "Springfield" "US" in
  let st := (reverseGeocodeAsync c false 0 initialGeocode).1 in
  let st2 := resumeRequest 0 (GeocoderReturns [a]) false 5 st in
  reverseGeocodeAsync c false 1005 st2 = (st2, ReturnsValue (Some a)).
Proof.
  intros c a st st2.
  refine (proj2 (proj2 (X4_resolved_address_is_served_from_cache
            st 0%nat (mkRequest (createCacheKey c) c) [a] 5 _)) c 1005 _ _).
  - vm_compute. reflexivity.
  - reflexivity.
  - reflexivity.
Defined.

(** X5.  The helper never serves an expired entry: whenever a call returns
    an address at once, the cache holds, under the bucket of the
    coordinate, an entry with that address whose age is strictly below the
    TTL, and the caller's signal is not aborted. *)
Theorem X5_immediate_address_is_fresh coords signalAborted now st a :
  (reverseGeocodeAsync coords signalAborted now st).2 = ReturnsValue (Some a) ->
  signalAborted = false
  /\ exists e,
       reverseGeocodeCache st !! createCacheKey coords = Some e
       /\ ge_address e = Some a
       /\ now - ge_timestamp e < REVERSE_GEOCODE_CACHE_TTL.
Proof.
  unfold reverseGeocodeAsync. destruct signalAborted; [done|].
  destruct (reverseGeocodeCache st !! createCacheKey coords) as [e|] eqn:Hc;
    simpl.
  - destruct (Z.ltb_spec (now - ge_timestamp e) REVERSE_GEOCODE_CACHE_TTL);
      simpl.
    + intros [= Ha]. split; [done|]. exists e. done.
    + by destruct (pendingReverseGeocodeRequests st !! createCacheKey coords).
  - by destruct (pendingReverseGeocodeRequests st !! createCacheKey coords).
Qed.

Lemma X5_immediate_address_is_fresh_witness :
  let c := mkCoords 10 20 None in
  let a := mkAddress "Main St" "Springfield" "US" in
  let st := resumeRequest 0 (GeocoderReturns [a]) false 5
              (reverseGeocodeAsync c false 0 initialGeocode).1 in
  exists e,
    reverseGeocodeCache st !! createCacheKey c = Some e
    /\ ge_address e = Some a
    /\ 1005 - ge_timestamp e < REVERSE_GEOCODE_CACHE_TTL.
Proof.
  intros c a st.
  refine (proj2 (X5_immediate_address_is_fresh c false 1005 st a _)).
  vm_compute. reflexivity.
Defined.

Lemma PromisesInv_initial : PromisesInv initialGeocode.
Proof.
  unfold PromisesInv, initialGeocode; simpl. split; [done|]. split.
  - intros p Hp. lia.
  - intros p _. by rewrite !lookup_empty.
Qed.

Lemma PromisesInv_step st ev : PromisesInv st -> PromisesInv (geocodeStep st ev).
Proof.
  intros (J1 & J2 & J3).
  destruct ev as [coords ab now | p outcome ab now | now]; simpl.
  - destruct (reverseGeocodeAsync_step_cases coords ab now st)
      as [-> | (-> & Hv & Hp)]; [done|].
    rewrite reverseGeocodeAsync_starts by done.
    unfold PromisesInv; simpl. split; [|split].
    + rewrite length_app. simpl. lia.
    + intros p Hlt. destruct (decide (p = nextPromise st)) as [->|Hne].
      * left. rewrite lookup_insert_eq. split; [eauto|].
        by apply J3.
      * rewrite lookup_insert_ne by done. apply J2. lia.
    + intros p Hle. rewrite lookup_insert_ne by lia. apply J3. lia.
  - destruct (running st !! p) as [rq|] eqn:Hr.
    2: { unfold resumeRequest. rewrite Hr. done. }
    destruct (resumeRequest_shape p rq outcome ab now st Hr)
      as (result & cache & scheduled & timer & ->).
    assert (Hlt : (p < nextPromise st)%nat).
    { destruct (decide (p < nextPromise st)%nat); [done|].
      destruct (J3 p) as [Hn _]; [lia | congruence]. }
    unfold PromisesInv; simpl. split; [done|]. split.
    + intros q Hq. destruct (decide (q = p)) as [->|Hne].
      * right. rewrite lookup_delete_eq, lookup_insert_eq. eauto.
      * rewrite lookup_delete_ne, lookup_insert_ne by done. by apply J2.
    + intros q Hq. rewrite lookup_delete_ne, lookup_insert_ne by lia.
      by apply J3.
  - unfold cleanupTimerFires. by destruct (cleanupTimeoutId st).
Qed.

Lemma PromisesInv_run evs : forall st,
  PromisesInv st -> PromisesInv (geocodeRun evs st).
Proof.
  induction evs as [|ev evs IH]; intros st J; [done|].
  simpl. apply IH. by apply PromisesInv_step.
Qed.

Lemma settled_value_step st ev p v :
  PromisesInv st ->
  settledPromises st !! p = Some v ->
  settledPromises (geocodeStep st ev) !! p = Some v.
Proof.
  intros (J1 & J2 & J3) Hs.
  destruct ev as [coords ab now | q outcome ab now | now]; simpl.
  - destruct (reverseGeocodeAsync_step_cases coords ab now st)
      as [-> | (-> & Hv & Hp)]; [done|].
    by rewrite reverseGeocodeAsync_starts.
  - destruct (running st !! q) as [rq|] eqn:Hr.
    2: { unfold resumeRequest. rewrite Hr. done. }
    destruct (resumeRequest_shape q rq outcome ab now st Hr)
      as (result & cache & scheduled & timer & ->). simpl.
    rewrite lookup_insert_ne; [done|]. intros ->.
    destruct (decide (p < nextPromise st)%nat) as [Hlt|Hge].
    + destruct (J2 p Hlt) as [[_ Hn] | [Hn _]]; congruence.
    + destruct (J3 p) as [Hn _]; [lia | congruence].
  - unfold cleanupTimerFires. by destruct (cleanupTimeoutId st).
Qed.

(** X6.  In every state the helper can reach, each request promise created
    so far stands for exactly one call of the external geocoder, is either
    still parked on that call or settled, never both, and once it has
    settled its value is final: no later call, settlement or cleanup
    changes what its holders received. *)
Theorem X6_request_promises_settle_once (evs : list GeocodeEvent) :
  let st := geocodeRun evs initialGeocode in
  length (externalCalls st) = nextPromise st
  /\ (forall p, (p < nextPromise st)%nat ->
       (is_Some (running st !! p) /\ settledPromises st !! p = None)
       \/ (running st !! p = None /\ is_Some (settledPromises st !! p)))
  /\ (forall p v later,
        settledPromises st !! p = Some v ->
        received (ReturnsPromise p) (geocodeRun later st) = Some v).
Proof.
  intros st.
  assert (J : PromisesInv st) by (apply PromisesInv_run, PromisesInv_initial).
  split; [apply J|]. split; [apply J|].
  intros p v later. simpl. clearbody st. revert st J.
  induction later as [|ev later IH]; intros st J Hs; [done|].
  simpl. apply IH; [by apply PromisesInv_step | by apply settled_value_step].
Qed.

Lemma X6_request_promises_settle_once_witness :
  let c := mkCoords 10 20 None in
  let a := mkAddress "Main St" "Springfield" "US" in
  let st := geocodeRun [HelperCalled c false 0;
                        ExternalSettled 0 (GeocoderReturns [a]) false 5]
              initialGeocode in
  received (ReturnsPromise 0%nat)
    (geocodeRun [ExternalSettled 0 (GeocoderThrows OtherValue) false 9] st)
  = Some (Some a).
Proof.
  intros c a st.
  refine (proj2 (proj2 (X6_request_promises_settle_once
            [HelperCalled c false 0;
             ExternalSettled 0 (GeocoderReturns [a]) false 5]))
          0%nat (Some a) _ _).
  vm_compute. reflexivity.
Defined.

Lemma cleanReverseGeocodeCache_lookup t1 cache k :
  cleanReverseGeocodeCache t1 cache !! k = cache !! k
  \/ (cleanReverseGeocodeCache t1 cache !! k = None
      /\ exists e, cache !! k = Some e
                   /\ t1 - ge_timestamp e > REVERSE_GEOCODE_CACHE_TTL).
Proof.
  unfold cleanReverseGeocodeCache. destruct (bool_decide _); [by left|].
  destruct (cache !! k) as [e|] eqn:Hc.
  - destruct (decide (t1 - ge_timestamp e > REVERSE_GEOCODE_CACHE_TTL)) as [Hold|Hyoung].
    + right. split; [|eauto]. apply map_lookup_filter_None. right.
      intros e' He'. simpl. rewrite Hc in He'. injection He' as <-. tauto.
    + left. apply map_lookup_filter_Some. done.
  - left. apply map_lookup_filter_None. by left.
Qed.

(** X7.  Eviction is invisible to lookups and spares every entry that has
    not expired.  A cleanup pass run at time [t1] changes the answer of no
    lookup made at a time [t2] not before [t1]; and if no entry is older
    than the TTL at [t1], the pass removes nothing, however large the cache
    is. *)
Theorem X7_cleanup_is_invisible_to_lookups :
  (forall st coords signalAborted t1 t2,
      t1 <= t2 ->
      (reverseGeocodeAsync coords signalAborted t2 (cleanupTimerFires t1 st)).2
      = (reverseGeocodeAsync coords signalAborted t2 st).2)
  /\ (forall cache t1,
        (forall k e, cache !! k = Some e ->
                     t1 - ge_timestamp e <= REVERSE_GEOCODE_CACHE_TTL) ->
        cleanReverseGeocodeCache t1 cache = cache).
Proof.
  split.
  - intros st coords ab t1 t2 Hle.
    unfold cleanupTimerFires. destruct (cleanupTimeoutId st); [|done].
    unfold reverseGeocodeAsync. destruct ab; [done|]. simpl.
    destruct (cleanReverseGeocodeCache_lookup t1 (reverseGeocodeCache st)
                (createCacheKey coords)) as [-> | (-> & e & -> & Hold)].
    + destruct (validEntry t2 _); [done|]. simpl.
      by destruct (pendingReverseGeocodeRequests st !! createCacheKey coords).
    + simpl.
      destruct (Z.ltb_spec (t2 - ge_timestamp e) REVERSE_GEOCODE_CACHE_TTL);
        [lia|].
      by destruct (pendingReverseGeocodeRequests st !! createCacheKey coords).
  - intros cache t1 Hyoung. unfold cleanReverseGeocodeCache.
    destruct (bool_decide _); [done|].
    apply map_filter_id. intros k e He. simpl.
    specialize (Hyoung k e He). lia.
Qed.

Lemma X7_cleanup_is_invisible_to_lookups_witness :
  let c := mkCoords 10 20 None in
  (reverseGeocodeAsync c false 7 (cleanupTimerFires 5 initialGeocode)).2
  = (reverseGeocodeAsync c false 7 initialGeocode).2.
Proof.
  intros c.
  apply (proj1 X7_cleanup_is_invisible_to_lookups initialGeocode c false 5 7).
  lia.
Defined.

(** ** The mutex on its own *)

Lemma mutexStep_keeps_queue_locked m op :
  (waiters m <> [] -> isLocked m = true) ->
  waiters (mutexStep m op) <> [] -> isLocked (mutexStep m op) = true.
Proof.
  intros I. destruct op as [caller|]; simpl.
  - unfold acquire. destruct (isLocked m) eqn:E; simpl; [done|].
    intros Hw. specialize (I Hw). congruence.
  - unfold release. by destruct (waiters m).
Qed.

(** X8.  Whatever sequence of [acquire] and release-handle calls the mutex
    goes through, starting unlocked and empty, a closure is only ever queued
    behind a locked mutex: whenever the queue is not empty the lock is
    taken. *)
Theorem X8_waiters_only_behind_a_lock (ops : list MutexOp) :
  let m := mutexRun ops fetchMutex0 in
  waiters m <> [] -> isLocked m = true.
Proof.
  assert (G : forall ops m, (waiters m <> [] -> isLocked m = true) ->
            waiters (mutexRun ops m) <> [] -> isLocked (mutexRun ops m) = true).
  { clear ops. induction ops as [|op ops IH]; intros m I; [exact I|].
    simpl. apply IH. by apply mutexStep_keeps_queue_locked. }
  simpl. apply G. simpl. done.
Qed.

Lemma X8_waiters_only_behind_a_lock_witness :
  isLocked (mutexRun [OpAcquire 1; OpAcquire 2; OpRelease; OpAcquire 3]
              fetchMutex0) = true.
Proof.
  apply (X8_waiters_only_behind_a_lock
           [OpAcquire 1; OpAcquire 2; OpRelease; OpAcquire 3]).
  vm_compute. discriminate.
Defined.

Lemma acquire_all_locked cs : forall m,
  isLocked m = true ->
  mutexRun (map OpAcquire cs) m = mkMutex true (waiters m ++ cs).
Proof.
  induction cs as [|c cs IH]; intros m Hl.
  - simpl. rewrite app_nil_r. destruct m as [l w]. simpl in Hl. by subst.
  - simpl. unfold acquire at 1. rewrite Hl. simpl.
    rewrite IH by done. simpl. by rewrite <- app_assoc.
Qed.

Lemma releaseTimes_prefix n : forall m,
  isLocked m = true ->
  (n <= length (waiters m))%nat ->
  releaseTimes n m = (mkMutex true (drop n (waiters m)), take n (waiters m)).
Proof.
  induction n as [|n IH]; intros m Hl Hn.
  - simpl. rewrite drop_0. destruct m as [l w]. simpl in Hl. by subst.
  - destruct m as [l [|a w]]; simpl in *; [lia|].
    rewrite IH; simpl; [done | done | lia].
Qed.

(** X9.  First in, first out.  Callers that reach [acquire] while the lock
    is taken are queued behind those already waiting, in their order of
    arrival.  Release calls then run the queued closures from the front, one
    per call, and the mutex stays locked throughout (it is handed over, never
    seen free); only a release that finds the queue empty unlocks it. *)
Theorem X9_mutex_is_fifo (m : FetchMutex) (cs : list nat) (n : nat) :
  isLocked m = true ->
  (n <= length (waiters m ++ cs))%nat ->
  let queued := mutexRun (map OpAcquire cs) m in
  queued = mkMutex true (waiters m ++ cs)
  /\ releaseTimes n queued
     = (mkMutex true (drop n (waiters m ++ cs)), take n (waiters m ++ cs))
  /\ releaseTimes (S (length (waiters m ++ cs))) queued
     = (mkMutex false [], waiters m ++ cs).
Proof.
  intros Hl Hn queued.
  assert (E : queued = mkMutex true (waiters m ++ cs))
    by by apply acquire_all_locked.
  split; [exact E|]. rewrite E. split.
  - by apply releaseTimes_prefix.
  - generalize (waiters m ++ cs). clear. intros w.
    induction w as [|a w IH]; [done|].
    simpl in *. by rewrite IH.
Qed.

(** Three callers queue behind a holder and are served in order. *)
Lemma X9_mutex_is_fifo_witness :
  releaseTimes 3 (mutexRun (map OpAcquire [7; 8; 9]%nat) (mkMutex true []))
  = (mkMutex true [], [7; 8; 9]%nat).
Proof.
  refine (proj1 (proj2 (X9_mutex_is_fifo (mkMutex true []) [7; 8; 9]%nat 3 _ _))).
  - reflexivity.
  - simpl. lia.
Defined.

(** ** [initializeLocation] and the lock *)

Lemma checkAndApplyCache_hit opts now s c :
  (checkAndApplyCache opts now s c).2 = isCacheValid opts now c.
Proof.
  unfold checkAndApplyCache. destruct c as [r|]; [|done].
  by destruct (isCacheValid opts now (Some r)).
Qed.

Lemma checkAndApplyCache_miss opts now s c :
  isCacheValid opts now c = false -> checkAndApplyCache opts now s c = (s, false).
Proof.
  intros H. unfold checkAndApplyCache. destruct c as [r|]; [|done].
  by rewrite H.
Qed.

Lemma initializeLocation_wait_fetches opts now cancelled s c signal :
  is_next (initializeLocation_wait opts now cancelled s c) = InitFetching signal ->
  cancelled = false /\ isMountedRef s = true /\ isFetchingRef s = false
  /\ isCacheValid opts now c = false
  /\ is_calls (initializeLocation_wait opts now cancelled s c)
     = [RequestForegroundPermissions]
  /\ is_releases (initializeLocation_wait opts now cancelled s c) = 0%nat
  /\ signal = Some (nextController s).
Proof.
  unfold initializeLocation_wait.
  destruct (isFetchingRef s) eqn:Ef, cancelled, (isMountedRef s) eqn:Em;
    simpl; try done.
  destruct (isCacheValid opts now c) eqn:Ev.
  - pose proof (checkAndApplyCache_hit opts now s c) as Hh. rewrite Ev in Hh.
    destruct (checkAndApplyCache opts now s c) as [s1 hit]. simpl in Hh.
    subst hit. done.
  - rewrite checkAndApplyCache_miss by done.
    unfold fetchLocation. simpl. rewrite Ef. simpl.
    intros [= <-]. unfold abortCurrent. simpl.
    by destruct (abortControllerRef s).
Qed.

(** X10.  [initializeLocation] calls [fetchLocation] only when it holds the
    lock, its effect is not cancelled, the component is mounted, no fetch of
    this session is in flight and the cache is not valid for this instance
    at that moment; it then makes exactly one provider call, the permission
    request, under a new signal, and has not called the release handle
    yet.  This holds both right after the lock is obtained and after any
    polling wait. *)
Theorem X10_initialize_fetches_only_when_needed opts now cancelled s c signal :
  (forall gotHandle,
      is_next (initializeLocation_afterRace opts now gotHandle cancelled s c)
      = InitFetching signal ->
      gotHandle = true /\ cancelled = false /\ isMountedRef s = true
      /\ isFetchingRef s = false /\ isCacheValid opts now c = false
      /\ is_calls (initializeLocation_afterRace opts now gotHandle cancelled s c)
         = [RequestForegroundPermissions]
      /\ is_releases (initializeLocation_afterRace opts now gotHandle cancelled s c)
         = 0%nat
      /\ signal = Some (nextController s))
  /\ (is_next (initializeLocation_wait opts now cancelled s c)
      = InitFetching signal ->
      cancelled = false /\ isMountedRef s = true /\ isFetchingRef s = false
      /\ isCacheValid opts now c = false
      /\ is_calls (initializeLocation_wait opts now cancelled s c)
         = [RequestForegroundPermissions]
      /\ is_releases (initializeLocation_wait opts now cancelled s c) = 0%nat
      /\ signal = Some (nextController s)).
Proof.
  split; [|apply initializeLocation_wait_fetches].
  intros gotHandle. unfold initializeLocation_afterRace.
  destruct gotHandle, cancelled, (isMountedRef s) eqn:Em; simpl; try done.
  destruct (isCacheValid opts now c) eqn:Ev.
  - pose proof (checkAndApplyCache_hit opts now s c) as Hh. rewrite Ev in Hh.
    destruct (checkAndApplyCache opts now s c) as [s1 hit]. simpl in Hh.
    subst hit. done.
  - rewrite checkAndApplyCache_miss by done. intros H.
    destruct (initializeLocation_wait_fetches _ _ _ _ _ _ H)
      as (_ & _ & Hf & _ & Hc & Hr & Hs).
    done.
Qed.

(** A first mount with an empty cache: the lock is obtained and the fetch
    starts. *)
Lemma X10_initialize_fetches_only_when_needed_witness :
  is_calls (initializeLocation_afterRace defaultOptions 0 true false
              initialSession None)
  = [RequestForegroundPermissions].
Proof.
  refine (proj1 (proj2 (proj2 (proj2 (proj2 (proj2
    (proj1 (X10_initialize_fetches_only_when_needed defaultOptions 0 false
              initialSession None (Some 0%nat)) true _))))))).
  reflexivity.
Defined.



Lemma lockStep_release_grants sys i a rest :
  phases sys !! i = Some HoldsHandle ->
  waiters (mutex sys) = a :: rest ->
  phases sys !! a = Some AwaitingRace ->
  lockStep sys (Releases i)
  = mkLock (mkMutex true rest) (<[a := HoldsHandle]> (phases sys)).
Proof.
  intros Hi Hw Ha. simpl. rewrite Hi. unfold release. rewrite Hw, Ha. done.
Qed.

(** X12.  A release handle called twice in a row lets two waiters in.  If
    acquirer [i] holds a handle while [a] and [b], both still parked, are
    the first two in the queue, then after two calls of the handle of [i]
    both [a] and [b] hold a release handle, and the mutex is locked with
    the rest of the queue. *)
Theorem X12_two_releases_admit_two_waiters sys i a b rest :
  phases sys !! i = Some HoldsHandle ->
  waiters (mutex sys) = a :: b :: rest ->
  phases sys !! a = Some AwaitingRace ->
  phases sys !! b = Some AwaitingRace ->
  a <> b ->
  let sys' := lockRun (releasesBy i 2) sys in
  phases sys' !! a = Some HoldsHandle
  /\ phases sys' !! b = Some HoldsHandle
  /\ mutex sys' = mkMutex true rest.
Proof.
  intros Hi Hw Ha Hb Hab sys'.
  assert (Hia : a <> i) by (intros ->; congruence).
  assert (E : sys' = lockStep (lockStep sys (Releases i)) (Releases i)) by done.
  rewrite (lockStep_release_grants sys i a (b :: rest)) in E by done.
  rewrite (lockStep_release_grants _ i b rest) in E; simpl.
  - rewrite E. simpl. split; [|split; [|done]].
    + rewrite lookup_insert_ne by done. apply lookup_insert_eq.
    + apply lookup_insert_eq.
  - by rewrite lookup_insert_ne.
  - done.
  - by rewrite lookup_insert_ne.
Qed.

Lemma X12_two_releases_admit_two_waiters_witness :
  let sys := lockRun [Acquires 1; Acquires 2; Acquires 3] lockSystem0 in
  let sys' := lockRun (releasesBy 1 2) sys in
  phases sys' !! 2%nat = Some HoldsHandle
  /\ phases sys' !! 3%nat = Some HoldsHandle
  /\ mutex sys' = mkMutex true [].
Proof.
  intros sys.
  refine (X12_two_releases_admit_two_waiters sys 1%nat 2%nat 3%nat [] _ _ _ _ _);
    try (vm_compute; reflexivity).
  lia.
Defined.

(** ** Sessions: signals, cancellation and unmounting *)

Ltac session_unfold :=
  unfold sessionStep, mount, unmount, mountEffect, checkAndApplyCache,
    applyCachedLocation, fetchLocation, fetchLocation_permission,
    fetchLocation_located, onGeocoded, onRefined, updateLocation,
    fetchLocation_catch, fetchLocation_finally, newAbortController,
    abortCurrent, safeSetState, shouldContinue, aborted, visible in *.

Lemma SignalsInv_initial : SignalsInv initialSession.
Proof.
  unfold SignalsInv, initialSession; simpl.
  split; [set_solver|]. split; [done|]. intros c Hc. lia.
Qed.

Lemma SignalsInv_fetchLocation s :
  SignalsInv s -> SignalsInv (fetchLocation s).1.1.
Proof.
  destruct s as [co ad lo er mo fe hi ctl nxt ab].
  unfold SignalsInv. simpl. intros (Ia & Ib & Ic).
  session_unfold; simpl.
  destruct fe; simpl; [done|].
  destruct ctl as [c|], mo; simpl.
  all: split; [|split].
  all: try (intros c' Hc'; apply elem_of_union in Hc' as [Hc'|Hc'];
            [apply elem_of_singleton in Hc' as ->;
             specialize (Ib c eq_refl); lia
            | specialize (Ia c' Hc'); lia]).
  all: try (intros c' Hc'; specialize (Ia c' Hc'); lia).
  all: try (intros c' [= <-]; lia).
  all: intros c' Hlt Hna;
    destruct (decide (c' = nxt)) as [->|Hne]; [done|];
    exfalso; assert (Hlt' : (c' < nxt)%nat) by lia.
  - assert (Hna' : c' ∉ ab) by set_solver.
    specialize (Ic c' Hlt' Hna'). injection Ic as <-. set_solver.
  - assert (Hna' : c' ∉ ab) by set_solver.
    specialize (Ic c' Hlt' Hna'). injection Ic as <-. set_solver.
  - specialize (Ic c' Hlt' Hna). done.
  - specialize (Ic c' Hlt' Hna). done.
Qed.

Lemma SignalsInv_unmount s : SignalsInv s -> SignalsInv (unmount s).
Proof.
  destruct s as [co ad lo er mo fe hi ctl nxt ab].
  unfold SignalsInv. simpl. intros (Ia & Ib & Ic).
  session_unfold; simpl.
  destruct ctl as [c|]; simpl; (split; [|split]); try done.
  - intros c' Hc'. apply elem_of_union in Hc' as [Hc'|Hc'].
    + apply elem_of_singleton in Hc' as ->. by apply Ib.
    + by apply Ia.
  - intros c' Hlt Hna. exfalso. assert (Hna' : c' ∉ ab) by set_solver.
    specialize (Ic c' Hlt Hna'). injection Ic as <-. set_solver.
Qed.

Lemma controllers_kept_by_continuations w ev :
  ev <> SeRefresh -> ev <> SeUnmount ->
  abortControllerRef (sessionStep w ev).1 = abortControllerRef w.1
  /\ nextController (sessionStep w ev).1 = nextController w.1
  /\ abortedSignals (sessionStep w ev).1 = abortedSignals w.1.
Proof.
  destruct w as [[co ad lo er mo fe hi ctl nxt ab] c].
  destruct ev; intros H1 H2; try done; session_unfold; simpl;
    repeat case_match; simpl; done.
Qed.

Lemma SignalsInv_step w ev : SignalsInv w.1 -> SignalsInv (sessionStep w ev).1.
Proof.
  intros I.
  assert (K : ev <> SeRefresh -> ev <> SeUnmount -> SignalsInv (sessionStep w ev).1).
  { intros H1 H2.
    destruct (controllers_kept_by_continuations w ev H1 H2) as (E1 & E2 & E3).
    unfold SignalsInv. rewrite E1, E2, E3. exact I. }
  destruct ev; try (by apply K).
  - destruct w as [s c]. simpl. by apply SignalsInv_unmount.
  - destruct w as [s c]. simpl. by apply SignalsInv_fetchLocation.
Qed.

Lemma SignalsInv_run evs : forall w,
  SignalsInv w.1 -> SignalsInv (sessionRun evs w).1.
Proof.
  induction evs as [|ev evs IH]; intros w I; [done|].
  simpl. apply IH. by apply SignalsInv_step.
Qed.

Lemma refresh_supersedes s :
  SignalsInv s ->
  isFetchingRef s = false ->
  exists s',
    refresh s = (s', Some (nextController s), [RequestForegroundPermissions])
    /\ aborted (nextController s) s' = false
    /\ forall c, (c < nextController s)%nat -> aborted c s' = true.
Proof.
  intros (Ia & Ib & Ic) Hf.
  destruct s as [co ad lo er mo fe hi ctl nxt ab]. simpl in *. subst fe.
  unfold refresh, fetchLocation, aborted.
  destruct ctl as [c|], mo; simpl; (eexists; split; [reflexivity|]);
    simpl; split.
  all: try (apply bool_decide_eq_false; intros Hin;
            apply elem_of_union in Hin as [Hin|Hin];
            [apply elem_of_singleton in Hin; specialize (Ib c eq_refl); lia
            | specialize (Ia _ Hin); lia]).
  all: try (apply bool_decide_eq_false; intros Hin;
            specialize (Ia _ Hin); lia).
  all: intros c' Hlt; apply bool_decide_eq_true;
    destruct (decide (c' ∈ ab)) as [Hin|Hout]; [set_solver|];
    specialize (Ic c' Hlt Hout);
    first [discriminate | injection Ic as <-; set_solver].
Qed.

(** X13.  A session has at most one live signal.  In every state reachable
    from the initial session, whatever the initial content of the cache,
    any created signal that is not aborted is the one held in
    [abortControllerRef], so two live signals are the same signal.  When
    [refresh()] starts a fetch there, the signal of the new fetch is not
    aborted and every signal created before reads aborted. *)
Theorem X13_one_live_signal (evs : list SessionEvent)
    (c0 : option CachedLocation) :
  let s := (sessionRun evs (initialSession, c0)).1 in
  (forall c, (c < nextController s)%nat -> aborted c s = false ->
     abortControllerRef s = Some c)
  /\ (forall c1 c2, (c1 < nextController s)%nat -> (c2 < nextController s)%nat ->
       aborted c1 s = false -> aborted c2 s = false -> c1 = c2)
  /\ (isFetchingRef s = false ->
      exists s',
        refresh s = (s', Some (nextController s), [RequestForegroundPermissions])
        /\ aborted (nextController s) s' = false
        /\ forall c, (c < nextController s)%nat -> aborted c s' = true).
Proof.
  intros s.
  assert (I : SignalsInv s) by (apply (SignalsInv_run evs (initialSession, c0)),
                                 SignalsInv_initial).
  assert (Hlive : forall c, (c < nextController s)%nat -> aborted c s = false ->
                            abortControllerRef s = Some c).
  { intros c Hlt Hna. destruct I as (_ & _ & Ic). apply Ic; [done|].
    unfold aborted in Hna. by apply bool_decide_eq_false in Hna. }
  split; [exact Hlive|]. split.
  - intros c1 c2 H1 H2 A1 A2.
    pose proof (Hlive c1 H1 A1) as E1. pose proof (Hlive c2 H2 A2) as E2.
    congruence.
  - by apply refresh_supersedes.
Qed.

(** A second fetch of the same session supersedes the first. *)
Lemma X13_one_live_signal_witness :
  let s := (sessionRun [SeRefresh;
                        SePermission defaultOptions 0%nat (Fulfilled Denied)]
              (initialSession, None)).1 in
  exists s',
    refresh s = (s', Some (nextController s), [RequestForegroundPermissions])
    /\ aborted (nextController s) s' = false
    /\ forall c, (c < nextController s)%nat -> aborted c s' = true.
Proof.
  intros s.
  refine (proj2 (proj2 (X13_one_live_signal
    [SeRefresh; SePermission defaultOptions 0%nat (Fulfilled Denied)] None)) _).
  vm_compute. reflexivity.
Defined.

Lemma unmounted_step w ev :
  isMountedRef w.1 = false -> ev <> SeMount ->
  visible (sessionStep w ev).1 = visible w.1
  /\ isMountedRef (sessionStep w ev).1 = false
  /\ ((forall p, ev <> SePersistedLoaded p) -> (sessionStep w ev).2 = w.2).
Proof.
  destruct w as [[co ad lo er mo fe hi ctl nxt ab] c]. simpl.
  intros -> Hev.
  destruct ev; try done; session_unfold; simpl;
    repeat case_match; simpl; try done.
  all: split; [done|]; split; [done|]; intros Hp; by destruct (Hp persisted).
Qed.

(** X14.  Nothing is published after unmounting.  From the cleanup of the
    mount effect on, and as long as the component is not mounted again, no
    event (late permission replies, race results, address lookups,
    [refresh()] calls, the mount effect body, the persisted record
    arriving) changes the coordinate, address, loading flag or error of the
    session; and apart from the adoption of the persisted record, none of
    them writes the global location cache. *)
Theorem X14_nothing_published_after_unmount s c (evs : list SessionEvent) :
  Forall (fun ev => ev <> SeMount) evs ->
  let w := sessionRun evs (unmount s, c) in
  visible w.1 = visible s
  /\ isMountedRef w.1 = false
  /\ (Forall (fun ev => forall p, ev <> SePersistedLoaded p) evs -> w.2 = c).
Proof.
  intros Hevs.
  assert (G : forall evs w0,
    Forall (fun ev => ev <> SeMount) evs -> isMountedRef w0.1 = false ->
    visible (sessionRun evs w0).1 = visible w0.1
    /\ isMountedRef (sessionRun evs w0).1 = false
    /\ (Forall (fun ev => forall p, ev <> SePersistedLoaded p) evs ->
        (sessionRun evs w0).2 = w0.2)).
  { clear. induction evs as [|ev evs IH]; intros w0 Hf Hm; [done|].
    apply Forall_cons in Hf as [Hev Hf].
    destruct (unmounted_step w0 ev Hm Hev) as (V & M & C).
    destruct (IH (sessionStep w0 ev) Hf M) as (V' & M' & C').
    simpl. split; [congruence|]. split; [done|].
    intros Hp. apply Forall_cons in Hp as [Hp1 Hp2].
    rewrite C' by done. by apply C. }
  destruct (G evs (unmount s, c) Hevs) as (V & M & C).
  { simpl. destruct s as [co ad lo er mo fe hi [ctl|] nxt ab]; reflexivity. }
  simpl. split; [|done]. rewrite V. simpl.
  destruct s as [co ad lo er mo fe hi [ctl|] nxt ab]; reflexivity.
Qed.

(** A fix arriving after the component has gone. *)
Lemma X14_nothing_published_after_unmount_witness :
  let s := (fetchLocation initialSession).1.1 in
  visible (sessionRun
             [SeLocated defaultOptions 0%nat
                (Fulfilled (Some (mkLocation (mkCoords 10 20 None) 5)))]
             (unmount s, None)).1
  = visible s.
Proof.
  intros s.
  refine (proj1 (X14_nothing_published_after_unmount s None
    [SeLocated defaultOptions 0%nat
       (Fulfilled (Some (mkLocation (mkCoords 10 20 None) 5)))] _)).
  constructor; [discriminate | constructor].
Defined.

(** X15.  Cancellation is silent.  Once the signal of a fetch reads
    aborted, every continuation of that fetch (the permission reply, the
    result of the race, the resolved address, the refined position),
    whatever it is resumed with, leaves coordinate, address, loading flag
    and error as they are, makes no provider call and does not touch the
    global cache; in particular no error is published. *)
Theorem X15_cancellation_is_silent opts signal s c :
  aborted signal s = true ->
  (forall reply,
      let r := fetchLocation_permission opts signal reply s in
      visible r.1.1 = visible s /\ r.1.2 = false /\ r.2 = [])
  /\ (forall reply,
        let r := fetchLocation_located opts signal reply s in
        visible r.1 = visible s /\ r.2 = [])
  /\ (forall now location geocodedAddress,
        onGeocoded opts signal now location geocodedAddress s c = (s, c, []))
  /\ (forall location refinedLocation,
        onRefined opts signal location refinedLocation s = []).
Proof.
  intros Ha. repeat split.
  - unfold fetchLocation_permission, fetchLocation_catch. rewrite Ha.
    by destruct reply.
  - unfold fetchLocation_permission, fetchLocation_catch. rewrite Ha.
    by destruct reply.
  - unfold fetchLocation_permission, fetchLocation_catch. rewrite Ha.
    by destruct reply.
  - unfold fetchLocation_located, fetchLocation_catch. rewrite Ha.
    by destruct reply.
  - unfold fetchLocation_located, fetchLocation_catch. rewrite Ha.
    by destruct reply.
  - intros now location a. unfold onGeocoded, shouldContinue. rewrite Ha.
    by rewrite andb_false_r.
  - intros location refined. unfold onRefined, shouldContinue. rewrite Ha.
    by rewrite andb_false_r.
Qed.

(** The first fetch of a session, superseded by a second one, then refused
    permission. *)
Lemma X15_cancellation_is_silent_witness :
  let s := (sessionRun [SeRefresh;
                        SeLocated defaultOptions 0%nat (Fulfilled None);
                        SeRefresh] (initialSession, None)).1 in
  let r := fetchLocation_permission defaultOptions 0%nat (Fulfilled Denied) s in
  visible r.1.1 = visible s /\ r.1.2 = false /\ r.2 = [].
Proof.
  intros s.
  refine (proj1 (X15_cancellation_is_silent defaultOptions 0%nat s None _)
            (Fulfilled Denied)).
  vm_compute. reflexivity.
Defined.

(** ** Fetching: the successful run and the failed race *)

(** X16.  A fetch that succeeds.  On a mounted session that is reachable
    from the initial one and is not fetching, [refresh()] sets loading,
    clears the error and asks for permission; once permission is granted
    the two position queries are issued with the configured maximum age,
    the fixed required accuracy and the initial accuracy; when the race
    yields a fix, its coordinate is published with loading false and no
    error, the address is left as it was until the lookup returns, the
    in-flight flag is cleared, and the calls made are the address lookup
    followed, if refinement is enabled, by the refined position query. *)
Theorem X16_successful_fetch (evs : list SessionEvent)
    (c0 : option CachedLocation) opts location :
  let s := (sessionRun evs (initialSession, c0)).1 in
  isMountedRef s = true ->
  isFetchingRef s = false ->
  exists s1 signal s2,
    refresh s = (s1, Some signal, [RequestForegroundPermissions])
    /\ visible s1 = (coords s, address s, true, None)
    /\ fetchLocation_permission opts signal (Fulfilled Granted) s1
       = (s1, true,
          [GetLastKnownPosition (lastKnownPositionMaxAge opts)
             REQUIRED_ACCURACY_THRESHOLD;
           GetCurrentPosition (initialAccuracy opts)])
    /\ fetchLocation_located opts signal (Fulfilled (Some location)) s1
       = (s2,
          ReverseGeocodeHelper (loc_coords location) signal
          :: (if enableRefinement opts
              then [GetCurrentPosition (refinedAccuracy opts)] else []))
    /\ visible s2 = (Some (loc_coords location), address s, false, None)
    /\ isFetchingRef s2 = false.
Proof.
  intros s Hm Hf.
  assert (I : SignalsInv s) by (apply (SignalsInv_run evs (initialSession, c0)),
                                 SignalsInv_initial).
  destruct (refresh_supersedes s I Hf) as (s1 & Hr & Hna & _).
  assert (Hm1 : isMountedRef s1 = true /\ visible s1 = (coords s, address s, true, None)).
  { clearbody s. destruct s as [co ad lo er mo fe hi ctl nxt ab].
    simpl in *. subst mo fe. unfold refresh, fetchLocation in Hr.
    destruct ctl; simpl in Hr; injection Hr as <-; done. }
  destruct Hm1 as [Hm1 Hv1].
  exists s1, (nextController s). eexists.
  split; [exact Hr|]. split; [exact Hv1|]. split.
  { unfold fetchLocation_permission. by rewrite Hna. }
  unfold fetchLocation_located, shouldContinue. rewrite Hna, Hm1. simpl.
  rewrite Hm1. unfold aborted in *. simpl. rewrite Hna. simpl.
  rewrite andb_true_r. split; [reflexivity|].
  unfold visible in *. simpl. injection Hv1 as _ -> _ ->. done.
Qed.

(** The first fetch of a fresh session, with the default options. *)
Lemma X16_successful_fetch_witness :
  let location := mkLocation (mkCoords 10 20 None) 5 in
  exists s1 signal s2,
    refresh initialSession = (s1, Some signal, [RequestForegroundPermissions])
    /\ visible s1 = (None, None, true, None)
    /\ fetchLocation_permission defaultOptions signal (Fulfilled Granted) s1
       = (s1, true,
          [GetLastKnownPosition LAST_KNOWN_POSITION_MAX_AGE
             REQUIRED_ACCURACY_THRESHOLD;
           GetCurrentPosition Low])
    /\ fetchLocation_located defaultOptions signal
         (Fulfilled (Some location)) s1
       = (s2, [ReverseGeocodeHelper (mkCoords 10 20 None) signal;
               GetCurrentPosition Balanced])
    /\ visible s2 = (Some (mkCoords 10 20 None), None, false, None)
    /\ isFetchingRef s2 = false.
Proof.
  intros location.
  exact (X16_successful_fetch [] None defaultOptions location
           eq_refl eq_refl).
Defined.

(** X17.  When neither position source produces a fix and the signal is
    not aborted, the race ends in null and a mounted session turns that
    into the "Unable to get location" failure: coordinate and address
    absent, loading false, that message as the error, the in-flight flag
    cleared and the session ready for another [refresh()].  A rejection of
    either provider call is not what gets published. *)
Theorem X17_failed_race_reports_no_fix opts signal s (r : RaceRun) :
  isMountedRef s = true ->
  aborted signal s = false ->
  lastKnownFix (lastKnownReply r) = None ->
  newPositionFix (newPositionReply r) = None ->
  exists s',
    fetchLocation_located opts signal (fetchLocationWithRace r) s = (s', [])
    /\ failedWith NO_FIX_MESSAGE s'.
Proof.
  intros Hm Hna Hlk Hnp.
  assert (E : fetchLocationWithRace r = Fulfilled None).
  { destruct r as [lk np first a1 a2 a3 a4]. simpl in *.
    unfold fetchLocationWithRace; simpl.
    destruct lk as [[l|]|e]; [done| |]; (destruct np as [n|e']; [done|]);
      destruct first, a1, a2, a3, a4; reflexivity. }
  rewrite E. unfold fetchLocation_located. rewrite Hna.
  eexists. split; [reflexivity|]. by apply catch_publishes.
Qed.

(** Both provider calls reject. *)
Lemma X17_failed_race_reports_no_fix_witness :
  let s := (fetchLocation initialSession).1.1 in
  let r := mkRace (Rejected (ErrorValue "no provider")) (Rejected OtherValue)
             true false false false false in
  exists s',
    fetchLocation_located defaultOptions 0%nat (fetchLocationWithRace r) s
    = (s', [])
    /\ failedWith NO_FIX_MESSAGE s'.
Proof.
  intros s r.
  refine (X17_failed_race_reports_no_fix defaultOptions 0%nat s r _ _ _ _).
  - reflexivity.
  - vm_compute. reflexivity.
  - reflexivity.
  - reflexivity.
Defined.



(** ** The location cache across sessions *)

(** X19.  Write in one session, read in another.  After a mounted session
    has written a location with [updateLocation] at time [now] (the write
    not being stale), any other mounted session that applies the cache shows
    exactly the written coordinate and address, with loading false and no
    error; and for every instance the cache is valid precisely while less
    time than the writer's TTL has passed since [now], the TTL of the
    reading instance being used only if the writer's TTL is zero. *)
Theorem X19_written_location_is_read_back opts now location geocodedAddress
    s1 c s2 :
  isMountedRef s1 = true ->
  (forall r, c = Some r -> cl_timestamp r <= now) ->
  isMountedRef s2 = true ->
  let c' := (updateLocation opts now location geocodedAddress s1 c).1.2 in
  visible (applyCachedLocation s2 c')
  = (Some (loc_coords location), geocodedAddress, false, None)
  /\ (forall opts2 now2,
        isCacheValid opts2 now2 c'
        = (now2 - now <?
             (if cacheTTL opts =? 0 then cacheTTL opts2 else cacheTTL opts))).
Proof.
  intros Hm1 Hfresh Hm2 c'.
  assert (E : c' = Some (mkCached (loc_coords location) geocodedAddress now
                           (Some (cacheTTL opts)))).
  { subst c'.
    destruct (updateLocation_cache_cases opts now location geocodedAddress s1 c)
      as [Hsame | [_ ->]]; [|done].
    revert Hsame. unfold updateLocation. rewrite Hm1. simpl.
    destruct c as [r|]; simpl; [|done].
    specialize (Hfresh r eq_refl).
    destruct (Z.ltb_spec now (cl_timestamp r)); [lia|done]. }
  rewrite E. split.
  - unfold applyCachedLocation. rewrite Hm2. done.
  - intros opts2 now2. unfold isCacheValid, js_or. simpl. done.
Qed.

Lemma X19_written_location_is_read_back_witness :
  let location := mkLocation (mkCoords 10 20 None) 5 in
  let c' := (updateLocation defaultOptions 100 location None initialSession
               None).1.2 in
  visible (applyCachedLocation initialSession c')
  = (Some (mkCoords 10 20 None), None, false, None).
Proof.
  intros location c'.
  refine (proj1 (X19_written_location_is_read_back defaultOptions 100 location
                   None initialSession None initialSession _ _ _)).
  - reflexivity.
  - intros r [=].
  - reflexivity.
Defined.

(** X20.  The mount effect.  With auto-fetch off, or once the initial fetch
    has been marked done, it does nothing.  Otherwise it starts
    [initializeLocation] exactly when the cache is not valid for this
    instance; with an empty cache the session is left as it is, and with a
    cached record a mounted session shows its coordinate and address at
    once, loading false and no error, whether or not the record has
    expired. *)
Theorem X20_mount_effect_shows_cache_then_revalidates opts now s c :
  (autoFetch opts = false \/ hasInitialFetchRef s = true ->
   mountEffect opts now s c = (s, false))
  /\ (autoFetch opts = true -> hasInitialFetchRef s = false ->
      (mountEffect opts now s c).2 = negb (isCacheValid opts now c)
      /\ (c = None -> (mountEffect opts now s c).1 = s)
      /\ (forall r, c = Some r -> isMountedRef s = true ->
            visible (mountEffect opts now s c).1
            = (Some (cl_coords r), cl_address r, false, None))).
Proof.
  split.
  - intros [Ha | Hh]; unfold mountEffect.
    + by rewrite Ha.
    + rewrite Hh. by rewrite orb_true_r.
  - intros Ha Hh. unfold mountEffect. rewrite Ha, Hh. cbn [negb orb].
    split; [|split].
    + destruct c as [r|]; [|done].
      by destruct (isCacheValid opts now (Some r)).
    + by intros ->.
    + intros r -> Hm. unfold applyCachedLocation. rewrite Hm.
      by destruct (isCacheValid opts now (Some r)).
Qed.

(** An expired record is still shown while the fetch is started. *)
Lemma X20_mount_effect_shows_cache_then_revalidates_witness :
  let r := mkCached (mkCoords 10 20 None) None 0 (Some CACHE_TTL) in
  (mountEffect defaultOptions 900000 initialSession (Some r)).2 = true
  /\ visible (mountEffect defaultOptions 900000 initialSession (Some r)).1
     = (Some (mkCoords 10 20 None), None, false, None).
Proof.
  intros r.
  destruct (proj2 (X20_mount_effect_shows_cache_then_revalidates
                     defaultOptions 900000 initialSession (Some r))
              eq_refl eq_refl) as (H1 & _ & H3).
  split; [exact H1|]. exact (H3 r eq_refl eq_refl).
Defined.

(** ** Ends of a fetch *)

(** X21.  The in-flight flag never stays set once [fetchLocation] is over.
    Whatever the permission request or the race is resumed with, whether
    the signal is aborted or not and whether the component is mounted or
    not, every path on which the function ends leaves [isFetchingRef]
    false; the only continuation that keeps the flag as it was is a granted
    permission under a live signal, after which the function is still
    running. *)
Theorem X21_fetch_always_clears_in_flight_flag opts signal s :
  (forall reply,
      let r := fetchLocation_permission opts signal reply s in
      (r.1.2 = false -> isFetchingRef r.1.1 = false)
      /\ (r.1.2 = true ->
          reply = Fulfilled Granted /\ aborted signal s = false /\ r.1.1 = s))
  /\ (forall reply,
        isFetchingRef (fetchLocation_located opts signal reply s).1 = false).
Proof.
  destruct s as [co ad lo er mo fe hi ctl nxt ab].
  split; intros reply.
  - unfold fetchLocation_permission, fetchLocation_catch,
      fetchLocation_finally, safeSetState, aborted. simpl.
    destruct reply as [[| |]|e]; simpl;
      destruct (bool_decide (signal ∈ ab)); simpl; try done;
      destruct mo; simpl; done.
  - unfold fetchLocation_located, fetchLocation_catch,
      fetchLocation_finally, safeSetState, aborted. simpl.
    destruct reply as [[l|]|e]; simpl;
      destruct (bool_decide (signal ∈ ab)); simpl; try done;
      destruct mo; simpl; done.
Qed.

Lemma X21_fetch_always_clears_in_flight_flag_witness :
  let s := (fetchLocation initialSession).1.1 in
  isFetchingRef s = true
  /\ isFetchingRef
       (fetchLocation_permission defaultOptions 0%nat (Fulfilled Denied) s).1.1
     = false.
Proof.
  intros s. split; [reflexivity|].
  refine (proj1 (proj1 (X21_fetch_always_clears_in_flight_flag
                          defaultOptions 0%nat s) (Fulfilled Denied)) _).
  vm_compute. reflexivity.
Defined.

(** X22.  Teardown.  Unmounting a session reachable from the initial one
    leaves what the consumer last saw untouched, clears the mounted, the
    in-flight and the initial-fetch flags, drops the current controller
    and leaves every signal the session ever created aborted. *)
Theorem X22_unmount_aborts_every_signal (evs : list SessionEvent)
    (c0 : option CachedLocation) :
  let s := (sessionRun evs (initialSession, c0)).1 in
  let u := unmount s in
  visible u = visible s
  /\ isMountedRef u = false /\ isFetchingRef u = false
  /\ hasInitialFetchRef u = false /\ abortControllerRef u = None
  /\ nextController u = nextController s
  /\ forall c, (c < nextController s)%nat -> aborted c u = true.
Proof.
  intros s u.
  assert (I : SignalsInv s) by (apply (SignalsInv_run evs (initialSession, c0)),
                                 SignalsInv_initial).
  subst u. clearbody s. destruct I as (Ia & Ib & Ic).
  destruct s as [co ad lo er mo fe hi [ctl|] nxt ab]; simpl in *;
    repeat (split; [done|]).
  - intros c Hlt. unfold aborted. simpl. apply bool_decide_eq_true.
    destruct (decide (c ∈ ab)) as [Hin|Hout]; [set_solver|].
    specialize (Ic c Hlt Hout). injection Ic as <-. set_solver.
  - intros c Hlt. unfold aborted. simpl. apply bool_decide_eq_true.
    destruct (decide (c ∈ ab)) as [Hin|Hout]; [done|].
    by specialize (Ic c Hlt Hout).
Qed.

Lemma catch_publishes_thrown signal e s :
  isMountedRef s = true -> aborted signal s = false ->
  failedWith
    match e with ErrorValue m => m | OtherValue => PERMISSION_MESSAGE end
    (fetchLocation_finally (fetchLocation_catch signal e s)).
Proof.
  intros Hm Hna. unfold fetchLocation_catch. rewrite Hna, Hm.
  destruct s as [c a l er mounted f h ctl nxt ab]. simpl in Hm. subst mounted.
  unfold failedWith. simpl. repeat split.
  unfold refresh, fetchLocation. simpl.
  destruct ctl; simpl; eauto.
Qed.

(** X23.  A provider call that rejects.  If the permission request, or the
    promise of the race, rejects while the session is mounted and its
    signal is not aborted, the session fails like on any top-level error:
    coordinate and address absent, loading false, in-flight flag cleared,
    ready for another [refresh()].  The error published is the message of
    the rejection when it is an [Error], and the "Unable to access your
    location" message for any other rejected value. *)
Theorem X23_rejections_are_published opts signal s e :
  isMountedRef s = true ->
  aborted signal s = false ->
  let message :=
    match e with ErrorValue m => m | OtherValue => PERMISSION_MESSAGE end in
  (exists s',
      fetchLocation_permission opts signal (Rejected e) s = (s', false, [])
      /\ failedWith message s')
  /\ (exists s',
        fetchLocation_located opts signal (Rejected e) s = (s', [])
        /\ failedWith message s').
Proof.
  intros Hm Hna message. split.
  - eexists. split; [reflexivity|]. by apply catch_publishes_thrown.
  - eexists. split; [reflexivity|]. by apply catch_publishes_thrown.
Qed.

Lemma X23_rejections_are_published_witness :
  let s := (fetchLocation initialSession).1.1 in
  exists s',
    fetchLocation_permission defaultOptions 0%nat
      (Rejected (ErrorValue "Location services are disabled")) s
    = (s', false, [])
    /\ failedWith "Location services are disabled" s'.
Proof.
  intros s.
  refine (proj1 (X23_rejections_are_published defaultOptions 0%nat s
                   (ErrorValue "Location services are disabled") _ _)).
  - reflexivity.
  - vm_compute. reflexivity.
Defined.
